(** * findimpls: interface-implementation discovery over loaded Go packages

    A shallow embedding of package [findimpls] ([Find], [findInterface],
    [findInterfaceImplementations], [loadPkgTypeMethodASTs],
    [findMethodDeclAST], [pkgMethodBodyDecls]) together with the parts of
    [go/ast], [go/types] and [go/packages] data that these functions read.

    Conventions.
    - A Go pointer that the code dereferences is an [option]; dereferencing
      [None] is a run-time panic, which is an outcome of its own ([Panic]),
      distinct from a returned [error] ([Err]).
    - A Go map is a [gmap]; [range] over a map visits the entries in an
      order chosen by the run time, so a map that the code only ranges over
      ([types.Info.Defs]) is the list of its entries in the order of that
      visit, and statements about all runs quantify over permutations.
    - Map keys of pointer type ([*packages.Package], [types.Type]) are
      compared by the value they point to, where Go compares the pointers.
      Two pointer types to one type, which are two keys for Go when they
      come from two calls of [types.NewPointer] or from two type
      expressions, are therefore one key here: a map of the embedding is the
      map of the program with the keys of equal structure merged. Their
      values are equal, since every function that is called on a key reads
      its structure only, and the statements say which keys a map has and
      what it holds for them, never how many keys there are.
    - A Go function that writes to an object of its caller returns the
      object as it is after the call, next to what the function returns.
    - The functions and constants of [go/types], [go/token], [go/packages]
      and [fmt] that the code uses, whose bodies are not part of the
      package, are the fields of the class [GoTools]; every theorem holds
      for any instance. [Reference] is an instance that computes. *)

From Stdlib Require Import ZArith.
From stdpp Require Import base option list strings countable gmap fin_maps.

Local Open Scope Z_scope.

(** ** Outcomes: a returned value, a returned error, or a panic *)

Inductive outcome (A : Type) : Type :=
| Ok (a : A)
| Err (msg : string)
| Panic.
Arguments Ok {A} a.
Arguments Err {A} msg.
Arguments Panic {A}.

Global Instance outcome_ret : MRet outcome := λ A a, Ok a.
Global Instance outcome_bind : MBind outcome := λ A B f m,
  match m with
  | Ok a => f a
  | Err e => Err e
  | Panic => Panic
  end.

Definition is_Ok {A} (o : outcome A) : Prop := ∃ a, o = Ok a.
Definition is_Err {A} (o : outcome A) : Prop := ∃ msg, o = Err msg.

(** Projections of an outcome, for evaluation. *)
Definition isOkb {A} (o : outcome A) : bool :=
  match o with
  | Ok _ => true
  | _ => false
  end.
Definition errorOf {A} (o : outcome A) : option string :=
  match o with
  | Err msg => Some msg
  | _ => None
  end.
Definition isPanicb {A} (o : outcome A) : bool :=
  match o with
  | Panic => true
  | _ => false
  end.

(** ** go/token and go/ast *)

(** [token.Pos] is an [int]. *)
Definition Pos := Z.

(** [ast.ObjKind], the kind of the parser-resolved object of an identifier. *)
Inductive ObjKind : Type := Bad | Pkg | Con | Typ | Var | Fun | Lbl.

(** [ast.Object]: only [Kind] is read. *)
Record AstObject : Type := mkAstObject { Kind : ObjKind }.

(** [ast.Ident]; [Obj] may be nil. *)
Record Ident : Type := mkIdent { Name : string; Obj : option AstObject }.

(** [ast.BlockStmt]; its [Pos()] is [Lbrace]. *)
Record BlockStmt : Type := mkBlockStmt { Lbrace : Pos; Rbrace : Pos }.

(** [ast.FieldList], reduced to the receiver's name and type expression. *)
Record FieldList : Type := mkFieldList { Fields : list (string * string) }.

(** [ast.FuncDecl]: [Recv] is nil for a function, [Body] is nil for a
    declaration without a body. *)
Record FuncDecl : Type := mkFuncDecl {
  Recv : option FieldList;
  FuncDeclName : string;
  Body : option BlockStmt
}.

(** [ast.Decl] is an interface with three implementations. *)
Inductive Decl : Type :=
| DFunc (f : FuncDecl)
| DGen (tok : string)
| DBad.

(** [ast.File]: only [Decls] is read. *)
Record File : Type := mkFile { FileName : string; Decls : list Decl }.

(** ** go/types *)

(** [types.Scope]: a function's scope starts where its body starts. *)
Record Scope : Type := mkScope { ScopePos : Pos; ScopeEnd : Pos }.

(** [types.Func]: a method object. [PtrRecv] tells a pointer receiver.
    [FuncScope] is what [Scope()] returns, a pointer: it is nil for a method
    that the type checker did not read from a body, such as [Error] of the
    universe type [error] (reached through an embedded [error]) or a method
    of an imported package. *)
Record Func : Type := mkFunc {
  FuncName : string;
  PtrRecv : bool;
  FuncSig : string;
  FuncScope : option Scope
}.

(** [types.Type]. A named type carries its underlying type (already
    resolved, so never itself named) and the methods that a lookup finds on
    it, declared or promoted. *)
Inductive type : Type :=
| Basic (name : string)
| Named (path name : string) (under : type) (methods : list Func)
| Pointer (elem : type)
| Struct (fields : list string)
| Interface (methods : list string)
| Signature (sig : string).

(** [Type.Underlying()]. *)
Definition Underlying (t : type) : type :=
  match t with
  | Named _ _ under _ => under
  | _ => t
  end.

(** [types.NewPointer]: a pointer type to [t]. Each call makes a new object;
    the embedding tells pointer types by their structure only. *)
Definition NewPointer (t : type) : type := Pointer t.

(** [types.Object], the three kinds of object that occur here. *)
Inductive Object : Type :=
| OTypeName (name : string) (typ : type)
| OVar (name : string) (typ : type)
| OFunc (f : Func).

(** [Object.Type()]. *)
Definition ObjType (o : Object) : type :=
  match o with
  | OTypeName _ t => t
  | OVar _ t => t
  | OFunc f => Signature (FuncSig f)
  end.

(** [types.Package]. *)
Record TypesPackage : Type := mkTypesPackage { PkgPath : string; PkgName : string }.

(** One entry of [types.Info.Defs : map[*ast.Ident]types.Object]; both the
    key and the value may be nil. *)
Definition DefEntry : Type := option Ident * option Object.

(** ** go/packages *)

(** [packages.Package]: the fields that are read. [Defs] is
    [TypesInfo.Defs], in the order in which [range] visits it. *)
Record Package : Type := mkPackage {
  ID : string;
  Types : TypesPackage;
  Syntax : list File;
  Defs : list DefEntry
}.

(** [token.FileSet]. *)
Record FileSet : Type := mkFileSet { Base : Z; FileNames : list string }.

(** [packages.Config]: [Mode] is a bit set, [Fset] may be nil. *)
Record Config : Type := mkConfig {
  Mode : Z;
  Dir : string;
  Fset : option FileSet
}.

(** ** Decidable equality and countability, for use as map keys *)

Global Instance ObjKind_eq_dec : EqDecision ObjKind.
Proof. solve_decision. Defined.
Global Instance AstObject_eq_dec : EqDecision AstObject.
Proof. solve_decision. Defined.
Global Instance Ident_eq_dec : EqDecision Ident.
Proof. solve_decision. Defined.
Global Instance BlockStmt_eq_dec : EqDecision BlockStmt.
Proof. solve_decision. Defined.
Global Instance FieldList_eq_dec : EqDecision FieldList.
Proof. solve_decision. Defined.
Global Instance FuncDecl_eq_dec : EqDecision FuncDecl.
Proof. solve_decision. Defined.
Global Instance Decl_eq_dec : EqDecision Decl.
Proof. solve_decision. Defined.
Global Instance File_eq_dec : EqDecision File.
Proof. solve_decision. Defined.
Global Instance Scope_eq_dec : EqDecision Scope.
Proof. solve_decision. Defined.
Global Instance Func_eq_dec : EqDecision Func.
Proof. solve_decision. Defined.
Global Instance type_eq_dec : EqDecision type.
Proof. solve_decision. Defined.
Global Instance Object_eq_dec : EqDecision Object.
Proof. solve_decision. Defined.
Global Instance TypesPackage_eq_dec : EqDecision TypesPackage.
Proof. solve_decision. Defined.
Global Instance Package_eq_dec : EqDecision Package.
Proof. solve_decision. Defined.

Definition ObjKind_code (k : ObjKind) : nat :=
  match k with
  | Bad => 0 | Pkg => 1 | Con => 2 | Typ => 3 | Var => 4 | Fun => 5 | Lbl => 6
  end%nat.
Definition ObjKind_of_code (n : nat) : ObjKind :=
  match n with
  | 0 => Bad | 1 => Pkg | 2 => Con | 3 => Typ | 4 => Var | 5 => Fun | _ => Lbl
  end%nat.
Lemma ObjKind_code_inv k : ObjKind_of_code (ObjKind_code k) = k.
Proof. by destruct k. Qed.
Global Instance ObjKind_countable : Countable ObjKind :=
  inj_countable' ObjKind_code ObjKind_of_code ObjKind_code_inv.

Lemma AstObject_tuple_inv (o : AstObject) : mkAstObject (Kind o) = o.
Proof. by destruct o. Qed.
Global Instance AstObject_countable : Countable AstObject :=
  inj_countable' Kind mkAstObject AstObject_tuple_inv.

Lemma Ident_tuple_inv (i : Ident) :
  (λ p : string * option AstObject, mkIdent p.1 p.2) (Name i, Obj i) = i.
Proof. by destruct i. Qed.
Global Instance Ident_countable : Countable Ident :=
  inj_countable' (λ i, (Name i, Obj i)) _ Ident_tuple_inv.

Lemma BlockStmt_tuple_inv (b : BlockStmt) :
  (λ p : Z * Z, mkBlockStmt p.1 p.2) (Lbrace b, Rbrace b) = b.
Proof. by destruct b. Qed.
Global Instance BlockStmt_countable : Countable BlockStmt :=
  inj_countable' (λ b, (Lbrace b, Rbrace b)) _ BlockStmt_tuple_inv.

Lemma FieldList_tuple_inv (l : FieldList) : mkFieldList (Fields l) = l.
Proof. by destruct l. Qed.
Global Instance FieldList_countable : Countable FieldList :=
  inj_countable' Fields mkFieldList FieldList_tuple_inv.

Lemma FuncDecl_tuple_inv (d : FuncDecl) :
  (λ p : option FieldList * string * option BlockStmt, mkFuncDecl p.1.1 p.1.2 p.2)
    (Recv d, FuncDeclName d, Body d) = d.
Proof. by destruct d. Qed.
Global Instance FuncDecl_countable : Countable FuncDecl :=
  inj_countable' (λ d, (Recv d, FuncDeclName d, Body d)) _ FuncDecl_tuple_inv.

Definition Decl_sum (d : Decl) : FuncDecl + (string + unit) :=
  match d with
  | DFunc f => inl f
  | DGen tok => inr (inl tok)
  | DBad => inr (inr ())
  end.
Definition Decl_of_sum (s : FuncDecl + (string + unit)) : Decl :=
  match s with
  | inl f => DFunc f
  | inr (inl tok) => DGen tok
  | inr (inr _) => DBad
  end.
Lemma Decl_sum_inv d : Decl_of_sum (Decl_sum d) = d.
Proof. by destruct d. Qed.
Global Instance Decl_countable : Countable Decl :=
  inj_countable' Decl_sum Decl_of_sum Decl_sum_inv.

Lemma File_tuple_inv (f : File) :
  (λ p : string * list Decl, mkFile p.1 p.2) (FileName f, Decls f) = f.
Proof. by destruct f. Qed.
Global Instance File_countable : Countable File :=
  inj_countable' (λ f, (FileName f, Decls f)) _ File_tuple_inv.

Lemma Scope_tuple_inv (s : Scope) :
  (λ p : Z * Z, mkScope p.1 p.2) (ScopePos s, ScopeEnd s) = s.
Proof. by destruct s. Qed.
Global Instance Scope_countable : Countable Scope :=
  inj_countable' (λ s, (ScopePos s, ScopeEnd s)) _ Scope_tuple_inv.

Lemma Func_tuple_inv (f : Func) :
  (λ p : string * bool * string * option Scope, mkFunc p.1.1.1 p.1.1.2 p.1.2 p.2)
    (FuncName f, PtrRecv f, FuncSig f, FuncScope f) = f.
Proof. by destruct f. Qed.
Global Instance Func_countable : Countable Func :=
  inj_countable' (λ f, (FuncName f, PtrRecv f, FuncSig f, FuncScope f)) _ Func_tuple_inv.

(** A type is flattened to a tree whose leaves hold its strings and lists. *)
Definition type_leaf : Type := string * string * list Func * list string.

Fixpoint type_tree (t : type) : gen_tree type_leaf :=
  match t with
  | Basic n => GenNode 0 [GenLeaf (n, EmptyString, [], [])]
  | Named p n u ms => GenNode 1 [GenLeaf (p, n, ms, []); type_tree u]
  | Pointer e => GenNode 2 [type_tree e]
  | Struct fs => GenNode 3 [GenLeaf (EmptyString, EmptyString, [], fs)]
  | Interface ms => GenNode 4 [GenLeaf (EmptyString, EmptyString, [], ms)]
  | Signature s => GenNode 5 [GenLeaf (s, EmptyString, [], [])]
  end.

Fixpoint type_of_tree (g : gen_tree type_leaf) : type :=
  match g with
  | GenNode 0 [GenLeaf (n, _, _, _)] => Basic n
  | GenNode 1 [GenLeaf (p, n, ms, _); u] => Named p n (type_of_tree u) ms
  | GenNode 2 [e] => Pointer (type_of_tree e)
  | GenNode 3 [GenLeaf (_, _, _, fs)] => Struct fs
  | GenNode 4 [GenLeaf (_, _, _, ms)] => Interface ms
  | GenNode 5 [GenLeaf (s, _, _, _)] => Signature s
  | _ => Basic EmptyString
  end.

Lemma type_tree_inv t : type_of_tree (type_tree t) = t.
Proof. induction t; simpl; congruence. Qed.
Global Instance type_countable : Countable type :=
  inj_countable' type_tree type_of_tree type_tree_inv.

Definition Object_sum (o : Object) : (string * type) + ((string * type) + Func) :=
  match o with
  | OTypeName n t => inl (n, t)
  | OVar n t => inr (inl (n, t))
  | OFunc f => inr (inr f)
  end.
Definition Object_of_sum (s : (string * type) + ((string * type) + Func)) : Object :=
  match s with
  | inl (n, t) => OTypeName n t
  | inr (inl (n, t)) => OVar n t
  | inr (inr f) => OFunc f
  end.
Lemma Object_sum_inv o : Object_of_sum (Object_sum o) = o.
Proof. by destruct o. Qed.
Global Instance Object_countable : Countable Object :=
  inj_countable' Object_sum Object_of_sum Object_sum_inv.

Lemma TypesPackage_tuple_inv (p : TypesPackage) :
  (λ q : string * string, mkTypesPackage q.1 q.2) (PkgPath p, PkgName p) = p.
Proof. by destruct p. Qed.
Global Instance TypesPackage_countable : Countable TypesPackage :=
  inj_countable' (λ p, (PkgPath p, PkgName p)) _ TypesPackage_tuple_inv.

Lemma Package_tuple_inv (p : Package) :
  (λ q : string * TypesPackage * list File * list DefEntry,
     mkPackage q.1.1.1 q.1.1.2 q.1.2 q.2)
    (ID p, Types p, Syntax p, Defs p) = p.
Proof. by destruct p. Qed.
Global Instance Package_countable : Countable Package :=
  inj_countable' (λ p, (ID p, Types p, Syntax p, Defs p)) _ Package_tuple_inv.

(** ** The result of a query *)

(** [type ResultMethods map[string]*ast.FuncDecl] *)
Abbreviation ResultMethods := (gmap string FuncDecl).
(** [type ResultTypes map[types.Type]ResultMethods] *)
Abbreviation ResultTypes := (gmap type (gmap string FuncDecl)).
(** [type ResultPackages map[*packages.Package]ResultTypes] *)
Abbreviation ResultPackages := (gmap Package (gmap type (gmap string FuncDecl))).

(** [type Query struct]; [LoadConfig] is a pointer and may be nil. *)
Record Query : Type := mkQuery {
  LoadConfig : option Config;
  Packages : list string;
  InterfacePackage : string;
  InterfaceName : string;
  Methods : list string
}.

(** ** The library functions that the package calls

    Their bodies belong to [golang.org/x/tools/go/packages], [go/types],
    [fmt] and [strconv]; the package only calls them. *)
Class GoTools : Type := {
  (** [packages.Load(cfg, patterns...)], what it returns: the packages and
      the error, which is nil ([None]) on success. *)
  packages_Load : Config → list string → list Package * option string;
  (** What [packages.Load(cfg, patterns...)] does to the file set that
      [cfg.Fset] points to, which is the caller's: the file set after the
      call, given the file set before it. Load adds to it the files that it
      parses. *)
  packages_Load_Fset : Config → list string → FileSet → FileSet;
  (** [types.Implements(V, T)], [T] an interface type. *)
  types_Implements : type → type → bool;
  (** The object returned by [types.LookupFieldOrMethod(T, addressable, pkg,
      name)]: a field ([OVar]), a method ([OFunc]) or nil. *)
  types_LookupFieldOrMethod : type → bool → TypesPackage → string → option Object;
  (** [Type.String()]. *)
  Type_String : type → string;
  (** What verb [%s] prints for a [*types.Func], nil or not. *)
  fmt_Func : option Func → string;
  (** What verb [%q] prints for a string. *)
  fmt_q : string → string;
  (** [token.NewFileSet()]. *)
  token_NewFileSet : FileSet;
  (** The [packages.LoadMode] bits that the package names. *)
  packages_NeedDeps : Z;
  packages_NeedImports : Z;
  packages_NeedFiles : Z;
  packages_NeedName : Z;
  packages_NeedSyntax : Z;
  packages_NeedTypes : Z;
  packages_NeedTypesInfo : Z
}.

(** The comma-ok type assertion of [t] to [*types.Interface]. *)
Definition isInterface (t : type) : bool :=
  match t with
  | Interface _ => true
  | _ => false
  end.

(** The type assertion of [t] to [*types.Interface], which panics on
    another type. *)
Definition assertInterface (t : type) : outcome type :=
  if isInterface t then Ok t else Panic.

(** The type assertion of [t] to [*types.Named], which panics on another
    type. *)
Definition assertNamed (t : type) : outcome type :=
  match t with
  | Named _ _ _ _ => Ok t
  | _ => Panic
  end.

(** [ident != nil && ident.Obj != nil && ident.Obj.Kind == ast.Typ] *)
Definition isTypeIdent (ident : option Ident) : bool :=
  match ident with
  | Some id =>
      match Obj id with
      | Some o => bool_decide (Kind o = Typ)
      | None => false
      end
  | None => false
  end.

(** The same test followed by [&& ident.Name == ifaceName]. *)
Definition isTypeIdentNamed (ifaceName : string) (ident : option Ident) : bool :=
  isTypeIdent ident &&
  match ident with
  | Some id => bool_decide (Name id = ifaceName)
  | None => false
  end.

Section findimpls.
Context `{GoTools}.

(** The modes that [Find] adds to the caller's configuration. *)
Definition requiredModes : Z :=
  Z.lor packages_NeedDeps (Z.lor packages_NeedImports (Z.lor packages_NeedFiles
    (Z.lor packages_NeedName (Z.lor packages_NeedSyntax
      (Z.lor packages_NeedTypes packages_NeedTypesInfo))))).

(** *** findInterface *)

(** The inner loop of [findInterface]: the first entry, in the order of the
    visit, that defines a type named [ifaceName]. *)
Fixpoint rangeDefsForInterface (ifaceName : string) (defs : list DefEntry)
  : option DefEntry :=
  match defs with
  | [] => None
  | (ident, object) :: rest =>
      if isTypeIdentNamed ifaceName ident then Some (ident, object)
      else rangeDefsForInterface ifaceName rest
  end.

Fixpoint findInterface (loadedPkgs : list Package) (ifaceImportPath ifaceName : string)
  : outcome type :=
  match loadedPkgs with
  | [] => Err ("did not find interface package " +:+ fmt_q ifaceImportPath)
  | ifacePkg :: rest =>
      if bool_decide (ID ifacePkg = ifaceImportPath) then
        match rangeDefsForInterface ifaceName (Defs ifacePkg) with
        | None =>
            Err ("did not find interface type " +:+ fmt_q ifaceName +:+
                 " in loaded package " +:+ fmt_q ifaceImportPath)
        | Some (_, ifaceObject) =>
            match ifaceObject with
            | None => Panic
            | Some obj => assertNamed (ObjType obj)
            end
        end
      else findInterface rest ifaceImportPath ifaceName
  end.

(** *** findInterfaceImplementations *)

Fixpoint rangeDefs (iface : type) (defs : list DefEntry) (results : list type)
  : outcome (list type) :=
  match defs with
  | [] => Ok results
  | (ident, object) :: rest =>
      if isTypeIdent ident then
        match object with
        | None => Panic
        | Some obj =>
            let typ := ObjType obj in
            if isInterface (Underlying typ) then rangeDefs iface rest results
            else if types_Implements typ iface then
              rangeDefs iface rest (results ++ [typ])
            else
              let ptr := NewPointer typ in
              if types_Implements ptr iface then
                rangeDefs iface rest (results ++ [ptr])
              else rangeDefs iface rest results
        end
      else rangeDefs iface rest results
  end.

Definition findInterfaceImplementations (iface : type) (pkg : Package)
  : outcome (list type) :=
  rangeDefs iface (Defs pkg) [].

(** *** pkgMethodBodyDecls *)

Fixpoint rangeDecls (decls : list Decl) (allMethodDecls : gmap Pos FuncDecl)
  : outcome (gmap Pos FuncDecl) :=
  match decls with
  | [] => Ok allMethodDecls
  | DFunc declFunc :: rest =>
      match Recv declFunc with
      | Some _ =>
          match Body declFunc with
          | None => Panic
          | Some body => rangeDecls rest (<[Lbrace body := declFunc]> allMethodDecls)
          end
      | None => rangeDecls rest allMethodDecls
      end
  | _ :: rest => rangeDecls rest allMethodDecls
  end.

Fixpoint rangeFiles (files : list File) (allMethodDecls : gmap Pos FuncDecl)
  : outcome (gmap Pos FuncDecl) :=
  match files with
  | [] => Ok allMethodDecls
  | astFile :: rest =>
      allMethodDecls' ← rangeDecls (Decls astFile) allMethodDecls;
      rangeFiles rest allMethodDecls'
  end.

Definition pkgMethodBodyDecls (pkg : Package) : outcome (gmap Pos FuncDecl) :=
  rangeFiles (Syntax pkg) ∅.

(** *** findMethodDeclAST *)

Definition findMethodDeclAST (impl : type) (pkg : Package) (methodName : string)
    (pkgMethodDecls : gmap Pos FuncDecl) : outcome FuncDecl :=
  match types_LookupFieldOrMethod impl true (Types pkg) methodName with
  | None =>
      Err ("did not find method " +:+ methodName +:+ " on type " +:+ Type_String impl)
  | Some (OFunc method) =>
      match FuncScope method with
      | None => Panic (* [Pos()] is called on the nil scope *)
      | Some scope =>
          match pkgMethodDecls !! ScopePos scope with
          | Some methodDecl => Ok methodDecl
          | None =>
              Err ("method " +:+ fmt_Func (Some method) +:+ " on type " +:+
                   Type_String impl +:+
                   " not found in AST with matching body position")
          end
      end
  | Some _ =>
      (* the failed assertion leaves [method] nil, and [method] is printed *)
      Err ("field " +:+ fmt_Func None +:+ " on type " +:+ Type_String impl +:+
           " should be a function")
  end.

(** *** loadPkgTypeMethodASTs *)

(** The inner loop fills the map made for [impl]. *)
Fixpoint rangeMethodNames (impl : type) (pkg : Package)
    (methodDecls : gmap Pos FuncDecl) (methodNames : list string)
    (methods : ResultMethods) : outcome ResultMethods :=
  match methodNames with
  | [] => Ok methods
  | methodName :: rest =>
      methodDecl ← findMethodDeclAST impl pkg methodName methodDecls;
      rangeMethodNames impl pkg methodDecls rest (<[methodName := methodDecl]> methods)
  end.

(** [result[impl]] is a fresh map at each visit of [impl], and [result] is
    dropped when a lookup fails, so the entry is stored once it is filled. *)
Fixpoint rangeImpls (pkg : Package) (methodDecls : gmap Pos FuncDecl)
    (methodNames : list string) (impls : list type) (result : ResultTypes)
  : outcome ResultTypes :=
  match impls with
  | [] => Ok result
  | impl :: rest =>
      methods ← rangeMethodNames impl pkg methodDecls methodNames ∅;
      rangeImpls pkg methodDecls methodNames rest (<[impl := methods]> result)
  end.

Definition loadPkgTypeMethodASTs (impls : list type) (pkg : Package)
    (methodNames : list string) : outcome ResultTypes :=
  methodDecls ← pkgMethodBodyDecls pkg;
  rangeImpls pkg methodDecls methodNames impls ∅.

(** *** Find *)

(** The body of the loop over [loadedPkgs]. *)
Definition findInPackage (ifaceType : type) (methods : list string) (pkg : Package)
  : outcome ResultTypes :=
  iface ← assertInterface (Underlying ifaceType);
  impls ← findInterfaceImplementations iface pkg;
  loadPkgTypeMethodASTs impls pkg methods.

Fixpoint rangePkgs (ifaceType : type) (methods : list string)
    (pkgs : list Package) (result : ResultPackages) : outcome ResultPackages :=
  match pkgs with
  | [] => Ok result
  | pkg :: rest =>
      pkgResult ← findInPackage ifaceType methods pkg;
      rangePkgs ifaceType methods rest (<[pkg := pkgResult]> result)
  end.

(** The two assignments through [query.LoadConfig]. *)
Definition ensureModes (cfg : Config) : Config :=
  let cfg1 := {| Mode := Z.lor (Mode cfg) requiredModes; Dir := Dir cfg; Fset := Fset cfg |} in
  match Fset cfg1 with
  | None => {| Mode := Mode cfg1; Dir := Dir cfg1; Fset := Some token_NewFileSet |}
  | Some _ => cfg1
  end.

(** What [Find] does once the configuration is in place. *)
Definition resolve (cfg : Config) (query : Query) : outcome ResultPackages :=
  match packages_Load cfg (Packages query) with
  | (_, Some err) => Err ("failed to load project packages: " +:+ err)
  | (loadedPkgs, None) =>
      ifaceType ← findInterface loadedPkgs (InterfacePackage query) (InterfaceName query);
      rangePkgs ifaceType (Methods query) loadedPkgs ∅
  end.

(** The configuration as [packages.Load] leaves it: the file set that it
    points to has the parsed files added. *)
Definition afterLoad (cfg : Config) (patterns : list string) : Config :=
  {| Mode := Mode cfg; Dir := Dir cfg;
     Fset := packages_Load_Fset cfg patterns <$> Fset cfg |}.

(** [Find] takes the query by pointer, and the query points to the
    configuration, which points to the file set: the first component is the
    query, with what it points to, as the caller finds it after the call;
    the second is what the call returns. *)
Definition Find (query : Query) : Query * outcome ResultPackages :=
  match LoadConfig query with
  | None => (query, Panic)
  | Some cfg =>
      let cfg' := ensureModes cfg in
      ({| LoadConfig := Some (afterLoad cfg' (Packages query));
          Packages := Packages query;
          InterfacePackage := InterfacePackage query;
          InterfaceName := InterfaceName query;
          Methods := Methods query |},
       resolve cfg' query)
  end.

End findimpls.

(** ** What an error message names *)

(** [hasPrefix s p]: [s] starts with [p]. *)
Fixpoint hasPrefix (s p : string) : bool :=
  match p, s with
  | EmptyString, _ => true
  | String c p', String d s' => bool_decide (c = d) && hasPrefix s' p'
  | String _ _, EmptyString => false
  end.

(** [contains s sub]: [sub] occurs in [s]. *)
Fixpoint contains (s sub : string) : bool :=
  hasPrefix s sub ||
  match s with
  | EmptyString => false
  | String _ s' => contains s' sub
  end.

(** A message names [what] when [what] occurs in it. *)
Definition names (msg what : string) : Prop := contains msg what = true.

(** ** A reference instance of the library functions

    Method sets as the language defines them: the method set of a named
    type holds its value-receiver methods, that of a pointer to it holds all
    its methods; a lookup on an addressable value finds both kinds, and the
    fields of an underlying struct. *)
Module Reference.

Definition methodSet (t : type) : list Func :=
  match t with
  | Named _ _ _ ms => filter (λ f, PtrRecv f = false) ms
  | Pointer (Named _ _ _ ms) => ms
  | _ => []
  end.

Definition hasMethod (fs : list Func) (name : string) : bool :=
  bool_decide (Exists (λ f, FuncName f = name) fs).

Definition Implements (V T : type) : bool :=
  match T with
  | Interface ms => bool_decide (Forall (λ m, hasMethod (methodSet V) m = true) ms)
  | _ => false
  end.

Definition declared (t : type) : list Func * list string :=
  match t with
  | Named _ _ (Struct fs) ms | Pointer (Named _ _ (Struct fs) ms) => (ms, fs)
  | Named _ _ _ ms | Pointer (Named _ _ _ ms) => (ms, [])
  | Struct fs | Pointer (Struct fs) => ([], fs)
  | _ => ([], [])
  end.

Definition LookupFieldOrMethod (t : type) (addressable : bool) (pkg : TypesPackage)
    (name : string) : option Object :=
  match List.find (λ f, bool_decide (FuncName f = name)) (declared t).1 with
  | Some f => Some (OFunc f)
  | None =>
      if bool_decide (name ∈ (declared t).2) then Some (OVar name (Basic "int"))
      else None
  end.

Fixpoint TypeString (t : type) : string :=
  match t with
  | Basic n => n
  | Named p n _ _ => p +:+ "." +:+ n
  | Pointer e => "*" +:+ TypeString e
  | Struct _ => "struct{...}"
  | Interface _ => "interface{...}"
  | Signature s => "func" +:+ s
  end.

(** [fmt] prints [<nil>] for a nil pointer whose [String] method panics. *)
Definition FuncString (f : option Func) : string :=
  match f with
  | None => "<nil>"
  | Some f => "func " +:+ FuncName f +:+ FuncSig f
  end.

(** [token.NewFileSet()]: an empty file set, whose base is 1. *)
Definition NewFileSet : FileSet := {| Base := 1; FileNames := [] |}.

(** [FileSet.AddFile(filename, -1, size)]: the file is added at the base,
    and the next base lies past its end. *)
Definition AddFile (fset : FileSet) (filename : string) (size : Z) : FileSet :=
  {| Base := Base fset + size + 1; FileNames := FileNames fset ++ [filename] |}.

(** The reference loader takes every file to be this long. *)
Definition nominalSize : Z := 199.

(** The [packages.LoadMode] bits: [NeedName LoadMode = 1 << iota], then
    [NeedFiles], [NeedCompiledGoFiles], [NeedImports], [NeedDeps],
    [NeedExportsFile], [NeedTypes], [NeedSyntax], [NeedTypesInfo]. *)
Definition NeedName : Z := 1.
Definition NeedFiles : Z := 2.
Definition NeedCompiledGoFiles : Z := 4.
Definition NeedImports : Z := 8.
Definition NeedDeps : Z := 16.
Definition NeedExportsFile : Z := 32.
Definition NeedTypes : Z := 64.
Definition NeedSyntax : Z := 128.
Definition NeedTypesInfo : Z := 256.

Definition dquote : string := String (Ascii.ascii_of_nat 34) EmptyString.

(** [%q] on a string that needs no escape. *)
Definition Quote (s : string) : string := dquote +:+ s +:+ dquote.

End Reference.

(** ** The load step *)

(** Modelled from the spec: what the sources of a package identifier are for
    [packages.Load], whose body is not among the sources of the package: "a
    requested package could not be found, parsed, or type-checked". *)
Inductive Sources : Type :=
| Loadable (pkg : Package)
| ParseFailure
| TypeCheckFailure.

(** A workspace tells the sources of the identifiers it has. *)
Abbreviation Workspace := (gmap string Sources).

(** Modelled from the spec: the error of [packages.Load] for one requested
    package: "the error must name the offending package". *)
Definition loadError (id : string) (s : option Sources) : option string :=
  match s with
  | None => Some ("package " +:+ id +:+ " could not be found")
  | Some ParseFailure => Some ("package " +:+ id +:+ " failed to parse")
  | Some TypeCheckFailure => Some ("package " +:+ id +:+ " failed to type-check")
  | Some (Loadable _) => None
  end.

(** Modelled from the spec: [packages.Load] over the requested identifiers:
    "fails with LoadError if any requested package cannot be found, fails to
    parse, or fails to type-check". *)
Fixpoint specLoadEach (ws : Workspace) (ids : list string) : list Package * option string :=
  match ids with
  | [] => ([], None)
  | id :: rest =>
      match ws !! id with
      | Some (Loadable pkg) =>
          match specLoadEach ws rest with
          | (pkgs, None) => (pkg :: pkgs, None)
          | (_, Some err) => ([], Some err)
          end
      | s => ([], loadError id s)
      end
  end.

(** Modelled from the spec: [packages.Load], "Load(packageIdentifiers,
    config) -> Program | LoadError", reading the workspace only. *)
Definition specLoad (ws : Workspace) (cfg : Config) (ids : list string)
  : list Package * option string :=
  specLoadEach ws ids.

(** The files that the reference loader parses: those of the requested
    packages that the workspace can deliver. *)
Definition loadedFiles (ws : Workspace) (ids : list string) : list string :=
  ids ≫= λ id,
    match ws !! id with
    | Some (Loadable pkg) => FileName <$> Syntax pkg
    | _ => []
    end.

(** What the reference loader does to the file set of the configuration: it
    adds the files that it parses, one after the other. *)
Definition referenceLoadFset (ws : Workspace) (cfg : Config) (ids : list string)
    (fset : FileSet) : FileSet :=
  foldl (λ fset filename, Reference.AddFile fset filename Reference.nominalSize)
        fset (loadedFiles ws ids).

(** The reference instance over a workspace. *)
Definition referenceTools (ws : Workspace) : GoTools := {|
  packages_Load := specLoad ws;
  packages_Load_Fset := referenceLoadFset ws;
  types_Implements := Reference.Implements;
  types_LookupFieldOrMethod := Reference.LookupFieldOrMethod;
  Type_String := Reference.TypeString;
  fmt_Func := Reference.FuncString;
  fmt_q := Reference.Quote;
  token_NewFileSet := Reference.NewFileSet;
  packages_NeedDeps := Reference.NeedDeps;
  packages_NeedImports := Reference.NeedImports;
  packages_NeedFiles := Reference.NeedFiles;
  packages_NeedName := Reference.NeedName;
  packages_NeedSyntax := Reference.NeedSyntax;
  packages_NeedTypes := Reference.NeedTypes;
  packages_NeedTypesInfo := Reference.NeedTypesInfo
|}.

(** ** A sample workspace: the packages [geo] and [shapes] *)
Module Shapes.

Definition typeIdent (name : string) : option Ident :=
  Some {| Name := name; Obj := Some {| Kind := Typ |} |}.
Definition funcIdent (name : string) : option Ident :=
  Some {| Name := name; Obj := Some {| Kind := Fun |} |}.
Definition plainIdent (name : string) : option Ident :=
  Some {| Name := name; Obj := None |}.

(** [type Shape interface { Area() float64 }] *)
Definition Shape : type := Named "geo" "Shape" (Interface ["Area"]) [].

Definition circleArea : Func :=
  {| FuncName := "Area"; PtrRecv := false; FuncSig := "() float64";
     FuncScope := Some {| ScopePos := 120; ScopeEnd := 160 |} |}.
Definition squareArea : Func :=
  {| FuncName := "Area"; PtrRecv := true; FuncSig := "() float64";
     FuncScope := Some {| ScopePos := 220; ScopeEnd := 260 |} |}.

(** [type Circle struct { R float64 }] with [func (c Circle) Area() float64] *)
Definition Circle : type := Named "shapes" "Circle" (Struct ["R"]) [circleArea].
(** [type Square struct { Side float64 }] with [func (s *Square) Area() float64] *)
Definition Square : type := Named "shapes" "Square" (Struct ["Side"]) [squareArea].
(** [type Named interface { Name() string }] *)
Definition NamedIface : type := Named "shapes" "Named" (Interface ["Name"]) [].

Definition circleAreaDecl : FuncDecl :=
  {| Recv := Some {| Fields := [("c", "Circle")] |}; FuncDeclName := "Area";
     Body := Some {| Lbrace := 120; Rbrace := 159 |} |}.
Definition squareAreaDecl : FuncDecl :=
  {| Recv := Some {| Fields := [("s", "*Square")] |}; FuncDeclName := "Area";
     Body := Some {| Lbrace := 220; Rbrace := 259 |} |}.
Definition helperDecl : FuncDecl :=
  {| Recv := None; FuncDeclName := "helper";
     Body := Some {| Lbrace := 300; Rbrace := 320 |} |}.

Definition geo : Package := {|
  ID := "geo";
  Types := {| PkgPath := "geo"; PkgName := "geo" |};
  Syntax := [ {| FileName := "geo.go"; Decls := [DGen "type"] |} ];
  Defs := [ (plainIdent "geo", None);
            (typeIdent "Shape", Some (OTypeName "Shape" Shape)) ]
|}.

Definition shapesSyntax : list File :=
  [ {| FileName := "shapes.go";
       Decls := [DGen "type"; DFunc circleAreaDecl; DFunc squareAreaDecl;
                 DFunc helperDecl] |} ].

Definition shapes : Package := {|
  ID := "shapes";
  Types := {| PkgPath := "shapes"; PkgName := "shapes" |};
  Syntax := shapesSyntax;
  Defs := [ (plainIdent "shapes", None);
            (typeIdent "Circle", Some (OTypeName "Circle" Circle));
            (typeIdent "Square", Some (OTypeName "Square" Square));
            (typeIdent "Named", Some (OTypeName "Named" NamedIface));
            (funcIdent "helper", Some (OFunc
               {| FuncName := "helper"; PtrRecv := false; FuncSig := "()";
                  FuncScope := Some {| ScopePos := 300; ScopeEnd := 321 |} |})) ]
|}.

(** A package that declares [type Disc struct { R float64 }] with
    [func (d Disc) Area() float64], and the alias [type DiscPtr = *Disc]:
    the alias is an identifier of kind [Typ] whose object has the aliased
    type, a pointer. *)
Definition discArea : Func :=
  {| FuncName := "Area"; PtrRecv := false; FuncSig := "() float64";
     FuncScope := Some {| ScopePos := 420; ScopeEnd := 460 |} |}.
Definition Disc : type := Named "aliases" "Disc" (Struct ["R"]) [discArea].
Definition discAreaDecl : FuncDecl :=
  {| Recv := Some {| Fields := [("d", "Disc")] |}; FuncDeclName := "Area";
     Body := Some {| Lbrace := 420; Rbrace := 459 |} |}.

Definition aliases : Package := {|
  ID := "aliases";
  Types := {| PkgPath := "aliases"; PkgName := "aliases" |};
  Syntax := [ {| FileName := "aliases.go";
                 Decls := [DGen "type"; DFunc discAreaDecl; DGen "type"] |} ];
  Defs := [ (typeIdent "Disc", Some (OTypeName "Disc" Disc));
            (typeIdent "DiscPtr", Some (OTypeName "DiscPtr" (Pointer Disc))) ]
|}.

(** [type Wrapped struct { geo.Shape }]: [Area] is promoted from the embedded
    interface; its object is the method of the interface, whose scope is
    that of a function type without a body and has no position. *)
Definition wrappedArea : Func :=
  {| FuncName := "Area"; PtrRecv := false; FuncSig := "() float64";
     FuncScope := Some {| ScopePos := 0; ScopeEnd := 0 |} |}.
Definition Wrapped : type := Named "promoted" "Wrapped" (Struct ["Shape"]) [wrappedArea].

Definition promoted : Package := {|
  ID := "promoted";
  Types := {| PkgPath := "promoted"; PkgName := "promoted" |};
  Syntax := [ {| FileName := "promoted.go"; Decls := [DGen "import"; DGen "type"] |} ];
  Defs := [ (typeIdent "Wrapped", Some (OTypeName "Wrapped" Wrapped)) ]
|}.

(** A package that declares [type Failure interface { Error() string }] and
    [type Wrap struct { error }]: [Error] is promoted from the embedded
    [error]; its object is the method of the universe type, which has no
    scope. The identifier of the embedded field is not resolved by the
    parser. *)
Definition errorError : Func :=
  {| FuncName := "Error"; PtrRecv := false; FuncSig := "() string";
     FuncScope := None |}.
Definition Failure : type := Named "failures" "Failure" (Interface ["Error"]) [].
Definition Wrap : type := Named "failures" "Wrap" (Struct ["error"]) [errorError].

Definition failures : Package := {|
  ID := "failures";
  Types := {| PkgPath := "failures"; PkgName := "failures" |};
  Syntax := [ {| FileName := "failures.go"; Decls := [DGen "type"; DGen "type"] |} ];
  Defs := [ (typeIdent "Failure", Some (OTypeName "Failure" Failure));
            (typeIdent "Wrap", Some (OTypeName "Wrap" Wrap));
            (plainIdent "error",
             Some (OVar "error" (Named "" "error" (Interface ["Error"]) []))) ]
|}.

(** A package that declares [type Inner struct{}] with
    [func (b Inner) Area() float64] and [type Outer struct { *Inner }]. The
    identifier of the embedded field is resolved by the parser to the
    declaration of [Inner], so it is of kind [Typ]; its object is the field,
    whose type is pointer-to-[Inner]. [Area] is promoted to [Outer]. *)
Definition innerArea : Func :=
  {| FuncName := "Area"; PtrRecv := false; FuncSig := "() float64";
     FuncScope := Some {| ScopePos := 520; ScopeEnd := 560 |} |}.
Definition Inner : type := Named "embeds" "Inner" (Struct []) [innerArea].
Definition Outer : type := Named "embeds" "Outer" (Struct ["Inner"]) [innerArea].
Definition innerAreaDecl : FuncDecl :=
  {| Recv := Some {| Fields := [("b", "Inner")] |}; FuncDeclName := "Area";
     Body := Some {| Lbrace := 520; Rbrace := 559 |} |}.

Definition embeds : Package := {|
  ID := "embeds";
  Types := {| PkgPath := "embeds"; PkgName := "embeds" |};
  Syntax := [ {| FileName := "embeds.go";
                 Decls := [DGen "type"; DFunc innerAreaDecl; DGen "type"] |} ];
  Defs := [ (typeIdent "Inner", Some (OTypeName "Inner" Inner));
            (plainIdent "Area", Some (OFunc innerArea));
            (typeIdent "Outer", Some (OTypeName "Outer" Outer));
            (typeIdent "Inner", Some (OVar "Inner" (Pointer Inner))) ]
|}.

(** A package that declares [type Shape interface { Area() float64 }] and,
    inside a function, [type Shape interface { Volume() float64 }]: two
    identifiers of kind [Typ] have the name [Shape]. *)
Definition ShapeTop : type := Named "twice" "Shape" (Interface ["Area"]) [].
Definition ShapeLocal : type := Named "twice" "Shape" (Interface ["Volume"]) [].

Definition twice : Package := {|
  ID := "twice";
  Types := {| PkgPath := "twice"; PkgName := "twice" |};
  Syntax := [ {| FileName := "twice.go";
                 Decls := [DGen "type";
                           DFunc {| Recv := None; FuncDeclName := "measure";
                                    Body := Some {| Lbrace := 640; Rbrace := 700 |} |}] |} ];
  Defs := [ (typeIdent "Shape", Some (OTypeName "Shape" ShapeTop));
            (funcIdent "measure", Some (OFunc
               {| FuncName := "measure"; PtrRecv := false; FuncSig := "()";
                  FuncScope := Some {| ScopePos := 640; ScopeEnd := 701 |} |}));
            (typeIdent "Shape", Some (OTypeName "Shape" ShapeLocal)) ]
|}.

(** A package with a method declaration that has no body. *)
Definition external : Package := {|
  ID := "external";
  Types := {| PkgPath := "external"; PkgName := "external" |};
  Syntax := [ {| FileName := "external.go";
                 Decls := [DFunc {| Recv := Some {| Fields := [("p", "Plate")] |};
                                    FuncDeclName := "Area"; Body := None |}] |} ];
  Defs := []
|}.

Definition workspace : Workspace :=
  <["geo" := Loadable geo]> (<["shapes" := Loadable shapes]>
    (<["aliases" := Loadable aliases]> (<["external" := Loadable external]>
      (<["promoted" := Loadable promoted]> (<["broken" := TypeCheckFailure]>
        (<["failures" := Loadable failures]> (<["embeds" := Loadable embeds]>
          (<["twice" := Loadable twice]> ∅)))))))).

Definition tools : GoTools := referenceTools workspace.

Definition config : Config := {| Mode := 0; Dir := "."; Fset := None |}.

(** The implementations of [geo.Shape] in the packages [pkgs]. *)
Definition queryOn (pkgs methods : list string) : Query := {|
  LoadConfig := Some config;
  Packages := pkgs;
  InterfacePackage := "geo";
  InterfaceName := "Shape";
  Methods := methods
|}.

Definition query (methods : list string) : Query := queryOn ["geo"; "shapes"] methods.

End Shapes.

(** ** Notions used by the statements *)

(** The types of the type-kind entries of [Defs], in the order of the visit. *)
Definition typeOfDef (d : DefEntry) : option type :=
  if isTypeIdent d.1 then ObjType <$> d.2 else None.

Definition typeDefs (pkg : Package) : list type := omap typeOfDef (Defs pkg).

(** [decl] is a top-level function declaration with a receiver in the
    syntax trees of [pkg]. *)
Definition methodDeclIn (pkg : Package) (decl : FuncDecl) : Prop :=
  is_Some (Recv decl) ∧ ∃ astFile, astFile ∈ Syntax pkg ∧ DFunc decl ∈ Decls astFile.

(** The position at which the body of [decl] begins. *)
Definition bodyPos (decl : FuncDecl) : option Pos := Lbrace <$> Body decl.

(** The first loaded package whose identifier is [path]. *)
Definition owningPackage (loadedPkgs : list Package) (path : string) : option Package :=
  List.find (λ pkg, bool_decide (ID pkg = path)) loadedPkgs.

(** [pkg] with its definitions visited in another order. *)
Definition withDefs (pkg : Package) (defs : list DefEntry) : Package :=
  {| ID := ID pkg; Types := Types pkg; Syntax := Syntax pkg; Defs := defs |}.


(** Two outcomes agree but for the text of the error. *)
Definition agree {A} (o o' : outcome A) : Prop :=
  match o, o' with
  | Ok a, Ok a' => a = a'
  | Err _, Err _ => True
  | Panic, Panic => True
  | _, _ => False
  end.

(** Two outcomes hold the same result, or both hold none. *)
Definition sameResult {A} (o o' : outcome A) : Prop :=
  match o, o' with
  | Ok a, Ok a' => a = a'
  | Ok _, _ | _, Ok _ => False
  | _, _ => True
  end.




(** A type-kind entry without an object. *)
Definition danglingDef (d : DefEntry) : Prop := isTypeIdent d.1 = true ∧ d.2 = None.

Global Instance danglingDef_dec d : Decision (danglingDef d).
Proof. unfold danglingDef. apply _. Defined.

(** A function declaration with a receiver and without a body. *)
Definition bodylessMethod (d : Decl) : Prop :=
  match d with
  | DFunc f => is_Some (Recv f) ∧ Body f = None
  | _ => False
  end.

Global Instance bodylessMethod_dec d : Decision (bodylessMethod d).
Proof. destruct d; simpl; apply _. Defined.

(** All top-level declarations of a package, file after file. *)
Definition allDecls (pkg : Package) : list Decl := Syntax pkg ≫= Decls.

(** A loop that computes a value for each key in turn, stores it under the
    key, and returns at the first failure. *)
Fixpoint rangeInsert {K V} `{Countable K} (f : K → outcome V) (ks : list K)
    (acc : gmap K V) : outcome (gmap K V) :=
  match ks with
  | [] => Ok acc
  | k :: rest => v ← f k; rangeInsert f rest (<[k := v]> acc)
  end.

(** A requested package that the workspace cannot deliver. *)
Definition unloadable (ws : Workspace) (id : string) : Prop :=
  ∀ pkg, ws !! id ≠ Some (Loadable pkg).

Section notions.
Context `{GoTools}.

(** The form in which a definition of type [typ] is recorded, if any. *)
Definition recordedForm (iface typ : type) : option type :=
  if isInterface (Underlying typ) then None
  else if types_Implements typ iface then Some typ
  else if types_Implements (Pointer typ) iface then Some (Pointer typ)
  else None.

Definition recordedOfDef (iface : type) (d : DefEntry) : option type :=
  typeOfDef d ≫= recordedForm iface.

(** The resolution step: what [Find] does with the packages once they are
    loaded. *)
Definition resolution (loadedPkgs : list Package) (ifaceImportPath ifaceName : string)
    (methods : list string) : outcome ResultPackages :=
  ifaceType ← findInterface loadedPkgs ifaceImportPath ifaceName;
  rangePkgs ifaceType methods loadedPkgs ∅.

(** The methods of one implementation: the inner loop from an empty map. *)
Definition methodsOf (pkg : Package) (methodDecls : gmap Pos FuncDecl)
    (methodNames : list string) (impl : type) : outcome ResultMethods :=
  rangeMethodNames impl pkg methodDecls methodNames ∅.

(** The requested name resolves on [impl] to a method that has a scope and
    whose declaration, with a body at the position of that scope, is in the
    package. *)
Definition resolvable (pkg : Package) (impl : type) (methodName : string) : Prop :=
  ∃ method scope decl,
    types_LookupFieldOrMethod impl true (Types pkg) methodName = Some (OFunc method) ∧
    FuncScope method = Some scope ∧
    methodDeclIn pkg decl ∧ bodyPos decl = Some (ScopePos scope).

End notions.

(** * The generator: package [diagnosticsplugin], file generate.go

    [Generate] writes, checks or removes one metadata file for each package.
    Its effects are on a file system and on the writer [stdout]; both are
    passed along explicitly. *)

(** [*packages.Package] as generate.go reads it: the fields read so far, and
    the two lists of file names. *)
Record PackageWithFiles : Type := mkPackageWithFiles {
  Loaded : Package;
  GoFiles : list string;
  OtherFiles : list string
}.

(** What generate.go uses and does not define: the loader of the package
    ([LoadDiagnosticHandlerImpls]), its constant [diagnosticsJSONPath] and the
    field [Type] of its [DiagnosticHandlerMetadata], whose declarations are
    in other files of the package, and the functions of [path/filepath],
    [os], [io/ioutil], [sort] and [encoding/json]. [M] is
    [DiagnosticHandlerMetadata], [FS] the state of the file system. The
    loader reads the sources of the project, which are not part of [FS]; its
    map is the list of its entries in the order in which [range] visits
    it. *)
Class GeneratorTools (M FS : Type) : Type := {
  LoadDiagnosticHandlerImpls :
    list string → string → list (PackageWithFiles * list M) * option string;
  diagnosticsJSONPath : string;
  MetadataType : M → string;
  filepath_Dir : string → string;
  filepath_Join : string → string → string;
  (** [os.Stat]: the error only, nil ([None]) when the file is there. *)
  os_Stat : FS → string → option string;
  os_Remove : FS → string → FS * option string;
  ioutil_ReadFile : FS → string → string * option string;
  ioutil_WriteFile : FS → string → string → Z → FS * option string;
  (** [sort.Slice], with the order on the elements. *)
  sort_Slice : (M → M → bool) → list M → list M;
  (** [json.MarshalIndent(SLSDiagnosticsWrapper{impls}, prefix, indent)]. *)
  json_MarshalIndent : list M → string → string → string * option string
}.

(** The line feed. *)
Definition newline : string := String (Ascii.ascii_of_nat 10) EmptyString.

(** The last byte of a byte slice, [b[len(b)-1]], if there is one. *)
Fixpoint lastByte (b : string) : option Ascii.ascii :=
  match b with
  | EmptyString => None
  | String c EmptyString => Some c
  | String _ rest => lastByte rest
  end.

Section generate.
Context `{GoTools} {M FS : Type} `{GeneratorTools M FS}.

(** *** getPackageDiagnosticsOutputPath *)

Definition getPackageDiagnosticsOutputPath (pkg : PackageWithFiles) : outcome string :=
  match GoFiles pkg with
  | goFile :: _ => Ok (filepath_Join (filepath_Dir goFile) diagnosticsJSONPath)
  | [] =>
      match OtherFiles pkg with
      | otherFile :: _ => Ok (filepath_Join (filepath_Dir otherFile) diagnosticsJSONPath)
      | [] =>
          Err ("failed to detect package " +:+ fmt_q (ID (Loaded pkg)) +:+
               " output directory: no go files in package")
      end
  end.

(** *** renderPackageDiagnosticsJSON *)

(** The slice is sorted in place by [Type]; the sorted slice is what is
    marshalled. Indexing the last byte of an empty result panics. *)
Definition renderPackageDiagnosticsJSON (impls : list M) : outcome string :=
  let impls := sort_Slice (λ a b, String.ltb (MetadataType a) (MetadataType b)) impls in
  match json_MarshalIndent impls "" "  " with
  | (_, Some err) => Err err
  | (metadataJSON, None) =>
      match lastByte metadataJSON with
      | None => Panic
      | Some c =>
          if bool_decide (c ≠ Ascii.ascii_of_nat 10)
          then Ok (metadataJSON +:+ newline)
          else Ok metadataJSON
      end
  end.

(** *** Generate *)

(** The loop over the metadata; [continue] is the call on the rest. *)
Fixpoint rangeMetadata (verify : bool) (metadata : list (PackageWithFiles * list M))
    (fs : FS) (stdout : list string) : FS * list string * outcome () :=
  match metadata with
  | [] => (fs, stdout, Ok ())
  | (pkg, impls) :: rest =>
      match getPackageDiagnosticsOutputPath pkg with
      | Panic => (fs, stdout, Panic)
      | Err err =>
          if bool_decide (0 < length impls)%nat then
            (fs, stdout,
             Err ("package contained interface implementations but no detectable files: "
                  +:+ err))
          else rangeMetadata verify rest fs stdout
      | Ok outputPath =>
          let exists_ := bool_decide (os_Stat fs outputPath = None) in
          if bool_decide (length impls = 0)%nat then
            if exists_ then
              if verify then
                (fs, stdout,
                 Err (diagnosticsJSONPath +:+ " should not exist as it would have no entries"))
              else
                let stdout := stdout ++
                  ["Removing " +:+ diagnosticsJSONPath +:+
                   " as there are no DiagnosticHandler implementations" +:+ newline] in
                match os_Remove fs outputPath with
                | (fs, Some err) => (fs, stdout, Err err)
                | (fs, None) => rangeMetadata verify rest fs stdout
                end
            else rangeMetadata verify rest fs stdout
          else
            match renderPackageDiagnosticsJSON impls with
            | Panic => (fs, stdout, Panic)
            | Err err => (fs, stdout, Err err)
            | Ok metadataJSON =>
                if verify then
                  if negb exists_ then
                    (fs, stdout,
                     Err (outputPath +:+ " does not exist and must be regenerated"))
                  else
                    match ioutil_ReadFile fs outputPath with
                    | (_, Some err) =>
                        (fs, stdout, Err ("failed to read existing path: " +:+ err))
                    | (existingContent, None) =>
                        if bool_decide (metadataJSON ≠ existingContent) then
                          (fs, stdout,
                           Err (outputPath +:+
                                " content differs from what is on disk and must be regenerated"))
                        else rangeMetadata verify rest fs stdout
                    end
                else
                  match ioutil_WriteFile fs outputPath metadataJSON 420 with
                  | (fs, Some err) =>
                      (fs, stdout,
                       Err ("failed to write " +:+ diagnosticsJSONPath +:+ ": " +:+ err))
                  | (fs, None) => rangeMetadata verify rest fs stdout
                  end
            end
      end
  end.

(** [Generate(ctx, pkgs, verify, projectDir, stdout)]: the file system and
    the lines written to [stdout] after the call, and the error. [ctx] is
    only handed to the loader. *)
Definition Generate (pkgs : list string) (verify : bool) (projectDir : string)
    (fs : FS) (stdout : list string) : FS * list string * outcome () :=
  match LoadDiagnosticHandlerImpls pkgs projectDir with
  | (_, Some err) => (fs, stdout, Err err)
  | (metadata, None) => rangeMetadata verify metadata fs stdout
  end.

(** *** Notions for the generator *)

(** The output paths of the packages that have one, in the order of the
    visit. *)
Definition outputPaths (metadata : list (PackageWithFiles * list M)) : list string :=
  omap (λ entry : PackageWithFiles * list M,
          match getPackageDiagnosticsOutputPath entry.1 with
          | Ok outputPath => Some outputPath
          | _ => None
          end) metadata.

(** The file of a package is as [Generate] wants it: a package without an
    output path has no implementation; one without implementations has no
    file; one with implementations has a file that holds their rendering. *)
Definition upToDate (fs : FS) (entry : PackageWithFiles * list M) : Prop :=
  match getPackageDiagnosticsOutputPath entry.1 with
  | Ok outputPath =>
      if bool_decide (length entry.2 = 0)%nat then os_Stat fs outputPath ≠ None
      else ∃ metadataJSON,
             renderPackageDiagnosticsJSON entry.2 = Ok metadataJSON ∧
             os_Stat fs outputPath = None ∧
             ioutil_ReadFile fs outputPath = (metadataJSON, None)
  | _ => entry.2 = []
  end.

(** What the calls on files are taken to do when they return no error: a
    file written is there and read back as written, a file removed is not
    there, and the other files are as before. *)
Record FileSystemLaws : Prop := {
  written_is_there fs outputPath data perm fs' :
    ioutil_WriteFile fs outputPath data perm = (fs', None) →
    os_Stat fs' outputPath = None ∧ ioutil_ReadFile fs' outputPath = (data, None);
  written_leaves_others fs outputPath data perm fs' other :
    ioutil_WriteFile fs outputPath data perm = (fs', None) →
    other ≠ outputPath →
    os_Stat fs' other = os_Stat fs other ∧
    ioutil_ReadFile fs' other = ioutil_ReadFile fs other;
  removed_is_gone fs outputPath fs' :
    os_Remove fs outputPath = (fs', None) → os_Stat fs' outputPath ≠ None;
  removed_leaves_others fs outputPath fs' other :
    os_Remove fs outputPath = (fs', None) →
    other ≠ outputPath →
    os_Stat fs' other = os_Stat fs other ∧
    ioutil_ReadFile fs' other = ioutil_ReadFile fs other
}.

End generate.

(** ** A reference instance for the generator

    Files are a finite map from names to contents; the metadata of an
    implementation is its [Type] alone. *)
Module ReferenceFiles.

Definition Stat (fs : gmap string string) (name : string) : option string :=
  match fs !! name with
  | Some _ => None
  | None => Some ("stat " +:+ name +:+ ": no such file or directory")
  end.

Definition Remove (fs : gmap string string) (name : string)
  : gmap string string * option string :=
  match fs !! name with
  | Some _ => (delete name fs, None)
  | None => (fs, Some ("remove " +:+ name +:+ ": no such file or directory"))
  end.

Definition ReadFile (fs : gmap string string) (name : string) : string * option string :=
  match fs !! name with
  | Some data => (data, None)
  | None => (EmptyString, Some ("open " +:+ name +:+ ": no such file or directory"))
  end.

Definition WriteFile (fs : gmap string string) (name data : string) (perm : Z)
  : gmap string string * option string :=
  (<[name := data]> fs, None).

(** The directory of a path: what comes before its last separator. *)
Fixpoint Dir (path : string) : string :=
  match path with
  | EmptyString => EmptyString
  | String c rest => if contains rest "/" then String c (Dir rest) else EmptyString
  end.

Definition Join (dir name : string) : string := dir +:+ "/" +:+ name.

Fixpoint insertSorted {A} (less : A → A → bool) (x : A) (l : list A) : list A :=
  match l with
  | [] => [x]
  | y :: l' => if less y x then y :: insertSorted less x l' else x :: l
  end.

Definition Slice {A} (less : A → A → bool) (l : list A) : list A :=
  foldr (insertSorted less) [] l.

Fixpoint commaSeparated (l : list string) : string :=
  match l with
  | [] => EmptyString
  | [x] => x
  | x :: l' => x +:+ "," +:+ commaSeparated l'
  end.

Definition MarshalIndent (impls : list string) (prefix indent : string)
  : string * option string :=
  ("[" +:+ commaSeparated impls +:+ "]", None).

End ReferenceFiles.

Definition referenceGenerator (metadata : list (PackageWithFiles * list string))
  : GeneratorTools string (gmap string string) := {|
  LoadDiagnosticHandlerImpls := λ _ _, (metadata, None);
  diagnosticsJSONPath := "diagnostics.json";
  MetadataType := λ m, m;
  filepath_Dir := ReferenceFiles.Dir;
  filepath_Join := ReferenceFiles.Join;
  os_Stat := ReferenceFiles.Stat;
  os_Remove := ReferenceFiles.Remove;
  ioutil_ReadFile := ReferenceFiles.ReadFile;
  ioutil_WriteFile := ReferenceFiles.WriteFile;
  sort_Slice := ReferenceFiles.Slice;
  json_MarshalIndent := ReferenceFiles.MarshalIndent
|}.

(** ** A sample project for the generator *)
Module Handlers.

(** A package with two implementations. *)
Definition handlers : PackageWithFiles := {|
  Loaded := Shapes.shapes;
  GoFiles := ["handlers/b.go"; "handlers/a.go"];
  OtherFiles := ["handlers/notes/readme.md"]
|}.

(** A package with files and without implementations. *)
Definition plain : PackageWithFiles := {|
  Loaded := Shapes.geo;
  GoFiles := [];
  OtherFiles := ["plain/data.txt"]
|}.

(** A package without files. *)
Definition fileless : PackageWithFiles := {|
  Loaded := Shapes.external; GoFiles := []; OtherFiles := []
|}.

Definition metadata : list (PackageWithFiles * list string) :=
  [ (handlers, ["threads"; "heap"]); (plain, []); (fileless, []) ].

Definition tools : GeneratorTools string (gmap string string) :=
  referenceGenerator metadata.

(** A file system with a stale file for [plain]. *)
Definition stale : gmap string string :=
  <["plain/diagnostics.json" := "[old]"]> ∅.

(** The run of [Generate] on the sample project from [stale]. *)
Definition run : gmap string string * list string * outcome () :=
  Generate (H := Shapes.tools) (H0 := tools) [] false "." stale [].

End Handlers.

(** * Facts

    First about the functions one by one, then about [Find]. *)

Section facts.
Context `{GoTools}.

(** *** Outcomes *)

Local Ltac outcome_cases :=
  simpl; split; intros;
  repeat match goal with
    | H : _ ∨ _ |- _ => destruct H
    | H : ∃ _, _ |- _ => destruct H
    | H : _ ∧ _ |- _ => destruct H
    end;
  simplify_eq; eauto.

Lemma bind_Ok {A B} (m : outcome A) (f : A → outcome B) b :
  m ≫= f = Ok b ↔ ∃ a, m = Ok a ∧ f a = Ok b.
Proof. destruct m; outcome_cases. Qed.

Lemma bind_Err {A B} (m : outcome A) (f : A → outcome B) msg :
  m ≫= f = Err msg ↔ m = Err msg ∨ ∃ a, m = Ok a ∧ f a = Err msg.
Proof. destruct m; outcome_cases. Qed.

Lemma bind_Panic {A B} (m : outcome A) (f : A → outcome B) :
  m ≫= f = Panic ↔ m = Panic ∨ ∃ a, m = Ok a ∧ f a = Panic.
Proof. destruct m; outcome_cases. Qed.

Lemma isOkb_true {A} (o : outcome A) : isOkb o = true → is_Ok o.
Proof. destruct o as [a| |]; [by exists a | done..]. Qed.

Lemma errorOf_Some {A} (o : outcome A) msg : errorOf o = Some msg → o = Err msg.
Proof. destruct o; simpl; congruence. Qed.

Lemma isPanicb_true {A} (o : outcome A) : isPanicb o = true → o = Panic.
Proof. by destruct o. Qed.


(** *** The scan of the definitions *)

Lemma rangeDefs_Ok iface defs results :
  Forall (λ d, ¬ danglingDef d) defs →
  rangeDefs iface defs results = Ok (results ++ omap (recordedOfDef iface) defs).
Proof.
  intros Hall. revert results.
  induction Hall as [|[ident object] defs Hd _ IH]; intros results; simpl.
  - by rewrite app_nil_r.
  - unfold recordedOfDef at 1, typeOfDef at 1, recordedForm; simpl.
    destruct (isTypeIdent ident) eqn:Hid; simpl; [|apply IH].
    destruct object as [obj|]; simpl; [|by destruct Hd].
    destruct (isInterface (Underlying (ObjType obj))); [apply IH|].
    destruct (types_Implements (ObjType obj) iface);
      [by rewrite IH, <-app_assoc|].
    unfold NewPointer.
    destruct (types_Implements (Pointer (ObjType obj)) iface);
      [by rewrite IH, <-app_assoc | apply IH].
Qed.

Lemma rangeDefs_Panic iface defs results :
  Exists danglingDef defs → rangeDefs iface defs results = Panic.
Proof.
  intros Hex. revert results.
  induction Hex as [[ident object] defs [Hid Hobj]|[ident object] defs _ IH];
    intros results; simpl in *.
  - by rewrite Hid, Hobj.
  - destruct (isTypeIdent ident); [|apply IH].
    destruct object as [obj|]; [|done].
    repeat (case_match; try apply IH).
Qed.

Lemma findInterfaceImplementations_spec iface pkg :
  findInterfaceImplementations iface pkg =
    if decide (Exists danglingDef (Defs pkg)) then Panic
    else Ok (omap (recordedOfDef iface) (Defs pkg)).
Proof.
  unfold findInterfaceImplementations. destruct (decide _) as [Hex|Hnex].
  - by apply rangeDefs_Panic.
  - rewrite rangeDefs_Ok; [done|]. by apply not_Exists_Forall; [apply _|].
Qed.

Lemma findInterfaceImplementations_no_Err iface pkg msg :
  findInterfaceImplementations iface pkg ≠ Err msg.
Proof. rewrite findInterfaceImplementations_spec. by destruct (decide _). Qed.

(** A type is among the implementations exactly when some definition is
    recorded in that form. *)
Lemma elem_of_implementations iface pkg impls t :
  findInterfaceImplementations iface pkg = Ok impls →
  t ∈ impls ↔ ∃ typ, typ ∈ typeDefs pkg ∧ recordedForm iface typ = Some t.
Proof.
  rewrite findInterfaceImplementations_spec. destruct (decide _); [done|].
  intros [= <-]. unfold typeDefs, recordedOfDef.
  rewrite list_elem_of_omap. setoid_rewrite list_elem_of_omap. split.
  - intros (d & Hd & Hrec). destruct (typeOfDef d) as [typ|] eqn:Htyp; [|done].
    exists typ. split; [by exists d | done].
  - intros (typ & (d & Hd & Htyp) & Hrec). exists d. split; [done|].
    by rewrite Htyp.
Qed.

(** *** The index of method declarations *)

Lemma rangeDecls_app l1 l2 acc :
  rangeDecls (l1 ++ l2) acc = rangeDecls l1 acc ≫= rangeDecls l2.
Proof.
  revert acc. induction l1 as [|d l1 IH]; intros acc; simpl; [done|].
  destruct d as [f| |]; try apply IH.
  destruct (Recv f); [|apply IH]. destruct (Body f); [apply IH | done].
Qed.

Lemma rangeFiles_flat files acc :
  rangeFiles files acc = rangeDecls (files ≫= Decls) acc.
Proof.
  revert acc. induction files as [|f files IH]; intros acc; simpl; [done|].
  rewrite rangeDecls_app. destruct (rangeDecls (Decls f) acc); simpl; auto.
Qed.

Lemma pkgMethodBodyDecls_flat pkg :
  pkgMethodBodyDecls pkg = rangeDecls (allDecls pkg) ∅.
Proof. apply rangeFiles_flat. Qed.

Lemma methodDeclIn_allDecls pkg decl :
  methodDeclIn pkg decl ↔ is_Some (Recv decl) ∧ DFunc decl ∈ allDecls pkg.
Proof.
  unfold methodDeclIn, allDecls. rewrite list_elem_of_bind.
  split; intros (Hr & f & ? & ?); (split; [done|]); by exists f.
Qed.

Lemma rangeDecls_Panic decls acc :
  Exists bodylessMethod decls → rangeDecls decls acc = Panic.
Proof.
  intros Hex. revert acc.
  induction Hex as [d decls Hd|d decls _ IH]; intros acc; simpl.
  - destruct d as [f| |]; try done. destruct Hd as [[r ->] ->]. done.
  - destruct d as [f| |]; try apply IH.
    destruct (Recv f); [|apply IH]. destruct (Body f); [apply IH | done].
Qed.

(** What the index holds after a scan that started from [acc]. *)
Lemma rangeDecls_Ok decls acc :
  Forall (λ d, ¬ bodylessMethod d) decls →
  ∃ m, rangeDecls decls acc = Ok m ∧
    (∀ pos d, m !! pos = Some d →
       acc !! pos = Some d ∨
       (is_Some (Recv d) ∧ DFunc d ∈ decls ∧ bodyPos d = Some pos)) ∧
    (∀ pos, is_Some (acc !! pos) → is_Some (m !! pos)) ∧
    (∀ d, is_Some (Recv d) → DFunc d ∈ decls →
       ∃ pos, bodyPos d = Some pos ∧ is_Some (m !! pos)).
Proof.
  intros Hall. revert acc.
  induction Hall as [|d decls Hd _ IH]; intros acc.
  - exists acc. split_and!; [done|by left|done|]. by intros ? ? ?%elem_of_nil.
  - assert (∀ acc', rangeDecls decls acc' = rangeDecls (d :: decls) acc →
      (∀ pos e, acc' !! pos = Some e →
         acc !! pos = Some e ∨
         (is_Some (Recv e) ∧ DFunc e ∈ d :: decls ∧ bodyPos e = Some pos)) →
      (∀ pos, is_Some (acc !! pos) → is_Some (acc' !! pos)) →
      (∀ e, is_Some (Recv e) → DFunc e = d →
        ∃ pos, bodyPos e = Some pos ∧ is_Some (acc' !! pos)) →
      ∃ m, rangeDecls (d :: decls) acc = Ok m ∧
        (∀ pos e, m !! pos = Some e →
           acc !! pos = Some e ∨
           (is_Some (Recv e) ∧ DFunc e ∈ d :: decls ∧ bodyPos e = Some pos)) ∧
        (∀ pos, is_Some (acc !! pos) → is_Some (m !! pos)) ∧
        (∀ e, is_Some (Recv e) → DFunc e ∈ d :: decls →
           ∃ pos, bodyPos e = Some pos ∧ is_Some (m !! pos))) as Hstep.
    { intros acc' Heq Hfrom Hkeep Hhead.
      destruct (IH acc') as (m & Hm & Hm1 & Hm2 & Hm3). exists m.
      split_and!; [by rewrite <-Heq| | |].
      - intros pos e [He|(? & ? & ?)]%Hm1; [by apply Hfrom|].
        right. split_and!; [done|by apply list_elem_of_further|done].
      - intros pos ?. by apply Hm2, Hkeep.
      - intros e Hr [Hde|Hin]%elem_of_cons.
        + destruct (Hhead e Hr Hde) as (pos & ? & ?). exists pos. split; [done|].
          by apply Hm2.
        + by apply Hm3. }
    destruct d as [f| |].
    + simpl in Hd. destruct (Recv f) as [r|] eqn:Hr.
      * destruct (Body f) as [b|] eqn:Hb; [|destruct Hd; by eauto].
        apply (Hstep (<[Lbrace b := f]> acc)).
        -- simpl. by rewrite Hr, Hb.
        -- intros pos e. rewrite lookup_insert. case_decide as Hpos.
           ++ intros [= <-]. right. subst pos. split_and!; [by rewrite Hr| |].
              ** apply list_elem_of_here.
              ** unfold bodyPos. by rewrite Hb.
           ++ by left.
        -- intros pos Hs. rewrite lookup_insert. by case_decide.
        -- intros e _ [= ->]. exists (Lbrace b). unfold bodyPos. rewrite Hb.
           split; [done|]. by rewrite lookup_insert_eq.
      * apply (Hstep acc); [simpl; by rewrite Hr|by left|done|].
        intros e [r He] [= ->]. congruence.
    + apply (Hstep acc); [done|by left|done|done].
    + apply (Hstep acc); [done|by left|done|done].
Qed.

Lemma pkgMethodBodyDecls_Panic pkg :
  Exists bodylessMethod (allDecls pkg) → pkgMethodBodyDecls pkg = Panic.
Proof. rewrite pkgMethodBodyDecls_flat. apply rangeDecls_Panic. Qed.

Lemma pkgMethodBodyDecls_no_Err pkg msg : pkgMethodBodyDecls pkg ≠ Err msg.
Proof.
  rewrite pkgMethodBodyDecls_flat.
  destruct (decide (Exists bodylessMethod (allDecls pkg))) as [Hex|Hnex].
  - by rewrite rangeDecls_Panic.
  - apply not_Exists_Forall in Hnex; [|apply _].
    destruct (rangeDecls_Ok _ ∅ Hnex) as (m & -> & _). done.
Qed.

(** The index maps a position to a method declaration whose body begins
    there, and holds the body position of every method declaration. *)
Lemma pkgMethodBodyDecls_Ok pkg methodDecls :
  pkgMethodBodyDecls pkg = Ok methodDecls →
  (∀ pos decl, methodDecls !! pos = Some decl →
     methodDeclIn pkg decl ∧ bodyPos decl = Some pos) ∧
  (∀ decl, methodDeclIn pkg decl →
     ∃ pos, bodyPos decl = Some pos ∧ is_Some (methodDecls !! pos)).
Proof.
  rewrite pkgMethodBodyDecls_flat. intros Hm.
  destruct (decide (Exists bodylessMethod (allDecls pkg))) as [Hex|Hnex].
  { by rewrite rangeDecls_Panic in Hm. }
  apply not_Exists_Forall in Hnex; [|apply _].
  destruct (rangeDecls_Ok _ ∅ Hnex) as (m & Hm' & Hm1 & _ & Hm3).
  rewrite Hm' in Hm. injection Hm as <-. split.
  - intros pos decl [Hempty|(? & ? & ?)]%Hm1; [by rewrite lookup_empty in Hempty|].
    split; [|done]. by apply methodDeclIn_allDecls.
  - intros decl [? ?]%methodDeclIn_allDecls. by apply Hm3.
Qed.

(** *** Loops that fill a map and return at the first failure

    The three loops [rangeMethodNames], [rangeImpls] and [rangePkgs] have
    one shape, that of [rangeInsert]. *)

Section rangeInsert.
Context {K V : Type} `{Countable K} (f : K → outcome V).
Implicit Types (ks : list K) (acc m : gmap K V).

Lemma rangeInsert_Ok ks acc m :
  rangeInsert f ks acc = Ok m →
  (∀ k, k ∈ ks → ∃ v, f k = Ok v ∧ m !! k = Some v) ∧
  (∀ k, k ∉ ks → m !! k = acc !! k).
Proof.
  revert acc. induction ks as [|k ks IH]; intros acc; simpl.
  - intros [= <-]. split; [by intros ? ?%elem_of_nil | done].
  - intros (v & Hv & Hrest)%bind_Ok. destruct (IH _ Hrest) as [IH1 IH2]. split.
    + intros k' [->|Hin]%elem_of_cons; [|by apply IH1].
      destruct (decide (k ∈ ks)) as [Hk|Hk]; [by apply IH1|].
      exists v. split; [done|]. by rewrite IH2, lookup_insert_eq.
    + intros k' [Hne Hnin]%not_elem_of_cons.
      by rewrite IH2, lookup_insert_ne.
Qed.

Lemma rangeInsert_is_Ok ks acc :
  (∀ k, k ∈ ks → is_Ok (f k)) → is_Ok (rangeInsert f ks acc).
Proof.
  revert acc. induction ks as [|k ks IH]; intros acc Hall; simpl.
  - by exists acc.
  - destruct (Hall k) as [v ->]; [apply list_elem_of_here|]. simpl.
    apply IH. intros k' ?. apply Hall. by apply list_elem_of_further.
Qed.

(** The loop returns the failure of the first key that fails. *)
Lemma rangeInsert_first_failure pre k post acc :
  (∀ k', k' ∈ pre → is_Ok (f k')) →
  ¬ is_Ok (f k) →
  ∃ o, rangeInsert f (pre ++ k :: post) acc = o ∧ ¬ is_Ok o ∧
       match f k, o with
       | Err msg, Err msg' => msg = msg'
       | Panic, Panic => True
       | _, _ => False
       end.
Proof.
  revert acc. induction pre as [|k' pre IH]; intros acc Hpre Hk; simpl.
  - destruct (f k) as [v|msg|] eqn:Hfk; simpl.
    + destruct Hk. by exists v.
    + exists (Err msg). split_and!; [done|by intros [? ?]|done].
    + exists Panic. split_and!; [done|by intros [? ?]|done].
  - destruct (Hpre k') as [v ->]; [apply list_elem_of_here|]. simpl.
    apply IH; [|done]. intros ? ?. apply Hpre. by apply list_elem_of_further.
Qed.

Lemma rangeInsert_not_Ok ks acc k :
  k ∈ ks → ¬ is_Ok (f k) → ¬ is_Ok (rangeInsert f ks acc).
Proof.
  intros Hin Hk [m Hm]. destruct (rangeInsert_Ok _ _ _ Hm) as [Hm1 _].
  destruct (Hm1 k Hin) as (v & Hv & _). apply Hk. by exists v.
Qed.

Lemma rangeInsert_Err ks acc msg :
  rangeInsert f ks acc = Err msg →
  ∃ pre k post, ks = pre ++ k :: post ∧
    (∀ k', k' ∈ pre → is_Ok (f k')) ∧ f k = Err msg.
Proof.
  revert acc. induction ks as [|k ks IH]; intros acc; simpl; [done|].
  intros [Hk|(v & Hv & Hrest)]%bind_Err.
  - exists [], k, ks. split_and!; [done|by intros ? ?%elem_of_nil|done].
  - destruct (IH _ Hrest) as (pre & k' & post & -> & Hpre & Hk').
    exists (k :: pre), k', post. split_and!; [done| |done].
    intros k'' [->|?]%elem_of_cons; [by exists v | by apply Hpre].
Qed.

Lemma rangeInsert_Panic ks acc :
  rangeInsert f ks acc = Panic → ∃ k, k ∈ ks ∧ f k = Panic.
Proof.
  revert acc. induction ks as [|k ks IH]; intros acc; simpl; [done|].
  intros [Hk|(v & Hv & Hrest)]%bind_Panic.
  - exists k. split; [apply list_elem_of_here | done].
  - destruct (IH _ Hrest) as (k' & ? & ?). exists k'.
    split; [by apply list_elem_of_further | done].
Qed.

Lemma rangeInsert_Ok_iff ks acc :
  is_Ok (rangeInsert f ks acc) ↔ ∀ k, k ∈ ks → is_Ok (f k).
Proof.
  split; [|apply rangeInsert_is_Ok].
  intros [m Hm] k Hk. destruct (rangeInsert_Ok _ _ _ Hm) as [Hin _].
  destruct (Hin k Hk) as (v & Hv & _). by exists v.
Qed.

(** Whatever the keys do, two lists with the same keys give the same map,
    or none. *)
Lemma rangeInsert_sameResult ks ks' acc :
  (∀ k, k ∈ ks ↔ k ∈ ks') →
  sameResult (rangeInsert f ks acc) (rangeInsert f ks' acc).
Proof.
  intros Hsame.
  assert (is_Ok (rangeInsert f ks acc) ↔ is_Ok (rangeInsert f ks' acc)) as Hiff.
  { rewrite !rangeInsert_Ok_iff. split; intros Hall k Hk; by apply Hall, Hsame. }
  destruct (rangeInsert f ks acc) as [m|msg|] eqn:Hm;
    destruct (rangeInsert f ks' acc) as [m'|msg'|] eqn:Hm'; simpl; try done;
    try (by destruct Hiff as [[? ?] _]; [by eexists|]);
    try (by destruct Hiff as [_ [? ?]]; [by eexists|]).
  destruct (rangeInsert_Ok _ _ _ Hm) as [H1 H2].
  destruct (rangeInsert_Ok _ _ _ Hm') as [H1' H2'].
  apply map_eq. intros k. destruct (decide (k ∈ ks)) as [Hin|Hnin].
  - destruct (H1 k Hin) as (v & Hv & ->).
    destruct (H1' k) as (v' & Hv' & ->); [by apply Hsame|]. congruence.
  - rewrite H2, H2'; [done| by rewrite <-Hsame | done].
Qed.

End rangeInsert.


(** Bodies that give the same result, or none, key by key, give loops that
    do. *)
Lemma rangeInsert_sameResult_ext {K V} `{Countable K} (f g : K → outcome V) ks acc :
  (∀ k, k ∈ ks → sameResult (f k) (g k)) →
  sameResult (rangeInsert f ks acc) (rangeInsert g ks acc).
Proof.
  revert acc. induction ks as [|k ks IH]; intros acc Hfg; simpl; [done|].
  pose proof (Hfg k (list_elem_of_here _ _)) as Hk.
  destruct (f k) as [v|msg|] eqn:Hf; destruct (g k) as [v'|msg'|] eqn:Hg;
    simpl in *; try done.
  subst v'. apply IH. intros k' ?. apply Hfg. by apply list_elem_of_further.
Qed.

(** *** The loops of the package, as instances of the common shape *)

Lemma rangeMethodNames_rangeInsert impl pkg methodDecls methodNames methods :
  rangeMethodNames impl pkg methodDecls methodNames methods =
  rangeInsert (λ name, findMethodDeclAST impl pkg name methodDecls) methodNames methods.
Proof.
  revert methods. induction methodNames as [|n ns IH]; intros methods; simpl; [done|].
  destruct (findMethodDeclAST impl pkg n methodDecls); simpl; auto.
Qed.

Lemma rangeImpls_rangeInsert pkg methodDecls methodNames impls result :
  rangeImpls pkg methodDecls methodNames impls result =
  rangeInsert (methodsOf pkg methodDecls methodNames) impls result.
Proof.
  revert result. induction impls as [|t ts IH]; intros result; simpl; [done|].
  fold (methodsOf pkg methodDecls methodNames t).
  destruct (methodsOf pkg methodDecls methodNames t); simpl; auto.
Qed.

Lemma rangePkgs_rangeInsert ifaceType methods pkgs result :
  rangePkgs ifaceType methods pkgs result =
  rangeInsert (findInPackage ifaceType methods) pkgs result.
Proof.
  revert result. induction pkgs as [|p ps IH]; intros result; simpl; [done|].
  destruct (findInPackage ifaceType methods p); simpl; auto.
Qed.

(** *** Looking up one method *)

(** The lookup panics exactly when the name resolves to a method without a
    scope. *)
Lemma findMethodDeclAST_Panic impl pkg name methodDecls :
  findMethodDeclAST impl pkg name methodDecls = Panic ↔
  ∃ method,
    types_LookupFieldOrMethod impl true (Types pkg) name = Some (OFunc method) ∧
    FuncScope method = None.
Proof.
  unfold findMethodDeclAST.
  destruct (types_LookupFieldOrMethod impl true (Types pkg) name)
    as [[? ?|? ?|method]|]; split; try done; try by intros (? & ? & ?).
  - destruct (FuncScope method) as [scope|] eqn:Hscope; [|by exists method].
    by destruct (methodDecls !! ScopePos scope).
  - intros (method' & [= <-] & ->). done.
Qed.


(** The keys of a package's entry are the implementations found in it. *)
Lemma loadPkgTypeMethodASTs_dom impls pkg methodNames entry :
  loadPkgTypeMethodASTs impls pkg methodNames = Ok entry →
  ∀ t, is_Some (entry !! t) ↔ t ∈ impls.
Proof.
  unfold loadPkgTypeMethodASTs. intros (methodDecls & _ & Hentry)%bind_Ok t.
  rewrite rangeImpls_rangeInsert in Hentry.
  destruct (rangeInsert_Ok _ _ _ _ Hentry) as [H1 H2]. split.
  - intros Hsome. destruct (decide (t ∈ impls)) as [|Hnin]; [done|].
    rewrite (H2 t Hnin), lookup_empty in Hsome. by destruct Hsome.
  - intros Hin. destruct (H1 t Hin) as (v & _ & ->). by eexists.
Qed.

Lemma loadPkgTypeMethodASTs_nil pkg methodNames entry :
  loadPkgTypeMethodASTs [] pkg methodNames = Ok entry → entry = ∅.
Proof.
  unfold loadPkgTypeMethodASTs. intros (methodDecls & _ & Hentry)%bind_Ok.
  simpl in Hentry. congruence.
Qed.

(** *** Locating the interface *)

Lemma rangeDefsForInterface_None ifaceName defs :
  rangeDefsForInterface ifaceName defs = None ↔
  ∀ d, d ∈ defs → isTypeIdentNamed ifaceName d.1 = false.
Proof.
  induction defs as [|[ident object] defs IH]; simpl.
  - split; [by intros _ ? ?%elem_of_nil | done].
  - destruct (isTypeIdentNamed ifaceName ident) eqn:Hid.
    + split; [done|]. intros Hall.
      specialize (Hall (ident, object) (list_elem_of_here _ _)). simpl in Hall. congruence.
    + rewrite IH. split.
      * intros Hall d [->|?]%elem_of_cons; [done | by apply Hall].
      * intros Hall d ?. apply Hall. by apply list_elem_of_further.
Qed.

Lemma findInterface_owningPackage loadedPkgs path ifaceName :
  findInterface loadedPkgs path ifaceName =
  match owningPackage loadedPkgs path with
  | None => Err ("did not find interface package " +:+ fmt_q path)
  | Some ifacePkg =>
      match rangeDefsForInterface ifaceName (Defs ifacePkg) with
      | None =>
          Err ("did not find interface type " +:+ fmt_q ifaceName +:+
               " in loaded package " +:+ fmt_q path)
      | Some (_, None) => Panic
      | Some (_, Some obj) => assertNamed (ObjType obj)
      end
  end.
Proof.
  unfold owningPackage. induction loadedPkgs as [|pkg pkgs IH]; simpl; [done|].
  destruct (bool_decide (ID pkg = path)); [|done].
  by destruct (rangeDefsForInterface ifaceName (Defs pkg)) as [[? [?|]]|].
Qed.

Lemma owningPackage_Some loadedPkgs path pkg :
  owningPackage loadedPkgs path = Some pkg → pkg ∈ loadedPkgs ∧ ID pkg = path.
Proof.
  unfold owningPackage. intros Hfind. apply find_some in Hfind as [Hin Hid].
  split; [by apply list_elem_of_In | by apply bool_decide_eq_true in Hid].
Qed.

Lemma owningPackage_None loadedPkgs path :
  owningPackage loadedPkgs path = None ↔ ∀ pkg, pkg ∈ loadedPkgs → ID pkg ≠ path.
Proof.
  unfold owningPackage. split.
  - intros Hnone pkg Hin%list_elem_of_In Hid.
    pose proof (find_none _ _ Hnone pkg Hin) as Hf. simpl in Hf.
    by apply bool_decide_eq_false in Hf.
  - intros Hall. destruct (List.find _ _) as [pkg|] eqn:Hfind; [|done].
    apply find_some in Hfind as [Hin%list_elem_of_In Hid%bool_decide_eq_true].
    by destruct (Hall pkg Hin).
Qed.

Lemma findInterface_Ok loadedPkgs path ifaceName ifaceType :
  findInterface loadedPkgs path ifaceName = Ok ifaceType →
  ∃ ifacePkg, owningPackage loadedPkgs path = Some ifacePkg.
Proof.
  rewrite findInterface_owningPackage.
  destruct (owningPackage loadedPkgs path) as [pkg|]; [by exists pkg | done].
Qed.

(** *** Find, once the packages are loaded *)

Lemma Find_loaded query cfg loadedPkgs :
  LoadConfig query = Some cfg →
  packages_Load (ensureModes cfg) (Packages query) = (loadedPkgs, None) →
  (Find query).2 =
    ifaceType ← findInterface loadedPkgs (InterfacePackage query) (InterfaceName query);
    rangePkgs ifaceType (Methods query) loadedPkgs ∅.
Proof. intros Hcfg Hload. unfold Find, resolve. by rewrite Hcfg; simpl; rewrite Hload. Qed.

Lemma Find_Ok query cfg loadedPkgs result :
  LoadConfig query = Some cfg →
  packages_Load (ensureModes cfg) (Packages query) = (loadedPkgs, None) →
  (Find query).2 = Ok result →
  ∃ ifaceType,
    findInterface loadedPkgs (InterfacePackage query) (InterfaceName query) = Ok ifaceType ∧
    (∀ pkg, pkg ∈ loadedPkgs →
       ∃ entry, findInPackage ifaceType (Methods query) pkg = Ok entry ∧
                result !! pkg = Some entry) ∧
    (∀ pkg, pkg ∉ loadedPkgs → result !! pkg = None).
Proof.
  intros Hcfg Hload. rewrite (Find_loaded _ _ _ Hcfg Hload).
  intros (ifaceType & Hiface & Hrange)%bind_Ok. exists ifaceType. split; [done|].
  rewrite rangePkgs_rangeInsert in Hrange.
  destruct (rangeInsert_Ok _ _ _ _ Hrange) as [H1 H2]. split; [done|].
  intros pkg Hnin. by rewrite (H2 pkg Hnin), lookup_empty.
Qed.

Lemma findInPackage_Ok ifaceType methods pkg entry :
  findInPackage ifaceType methods pkg = Ok entry →
  isInterface (Underlying ifaceType) = true ∧
  ∃ impls,
    findInterfaceImplementations (Underlying ifaceType) pkg = Ok impls ∧
    loadPkgTypeMethodASTs impls pkg methods = Ok entry.
Proof.
  unfold findInPackage, assertInterface.
  destruct (isInterface (Underlying ifaceType)); simpl; [|done].
  intros (impls & ? & ?)%bind_Ok. split; [done|]. by exists impls.
Qed.

End facts.

(** *** What a message names *)

Lemma hasPrefix_app p s : hasPrefix (p +:+ s) p = true.
Proof.
  induction p as [|c p IH]; simpl; [by destruct s|].
  rewrite bool_decide_eq_true_2; [apply IH | done].
Qed.

Lemma contains_prefix s sub : hasPrefix s sub = true → contains s sub = true.
Proof. intros Hp. destruct s; simpl in *; by rewrite Hp. Qed.

Lemma contains_app_r pre s sub :
  contains s sub = true → contains (pre +:+ s) sub = true.
Proof.
  intros Hs. induction pre as [|c pre IH]; simpl; [done|].
  rewrite IH. apply orb_true_r.
Qed.

Lemma names_infix pre what post : names (pre +:+ what +:+ post) what.
Proof. apply contains_app_r, contains_prefix, hasPrefix_app. Qed.

Lemma names_app_r pre msg what : names msg what → names (pre +:+ msg) what.
Proof. apply contains_app_r. Qed.

Lemma names_suffix pre what : names (pre +:+ what) what.
Proof.
  apply contains_app_r, contains_prefix.
  induction what as [|c what IH]; simpl; [done|].
  rewrite bool_decide_eq_true_2; [apply IH | done].
Qed.

(** *** The load step, as modelled *)

Lemma loadError_names ws id :
  unloadable ws id → ∃ err, loadError id (ws !! id) = Some err ∧ names err id.
Proof.
  intros Hun. unfold loadError.
  destruct (ws !! id) as [[pkg| |]|] eqn:Hid.
  - by destruct (Hun pkg).
  - eexists. split; [done|]. apply (names_infix "package " id " failed to parse").
  - eexists. split; [done|]. apply (names_infix "package " id " failed to type-check").
  - eexists. split; [done|]. apply (names_infix "package " id " could not be found").
Qed.

Lemma specLoadEach_head ws id rest :
  unloadable ws id → specLoadEach ws (id :: rest) = ([], loadError id (ws !! id)).
Proof.
  intros Hun. simpl. destruct (ws !! id) as [[pkg| |]|] eqn:Hid; [|done..].
  by destruct (Hun pkg).
Qed.

Lemma specLoadEach_fails ws ids id :
  id ∈ ids → unloadable ws id →
  ∃ err offending,
    specLoadEach ws ids = ([], Some err) ∧
    offending ∈ ids ∧ unloadable ws offending ∧ names err offending.
Proof.
  intros Hin Hun. induction ids as [|id' ids IH]; [by apply elem_of_nil in Hin|].
  destruct (ws !! id') as [[pkg| |]|] eqn:Hid'.
  - apply elem_of_cons in Hin as [->|Hin].
    { destruct (Hun pkg). done. }
    destruct (IH Hin) as (err & offending & Hload & ? & ? & ?).
    exists err, offending. simpl. rewrite Hid', Hload.
    split_and!; [done|by apply list_elem_of_further|done..].
  - assert (unloadable ws id') as Hun' by (intros pkg; by rewrite Hid').
    destruct (loadError_names ws id' Hun') as (err & Herr & Hnames).
    exists err, id'. rewrite (specLoadEach_head _ _ _ Hun'), Herr.
    split_and!; [done|apply list_elem_of_here|done..].
  - assert (unloadable ws id') as Hun' by (intros pkg; by rewrite Hid').
    destruct (loadError_names ws id' Hun') as (err & Herr & Hnames).
    exists err, id'. rewrite (specLoadEach_head _ _ _ Hun'), Herr.
    split_and!; [done|apply list_elem_of_here|done..].
  - assert (unloadable ws id') as Hun' by (intros pkg; by rewrite Hid').
    destruct (loadError_names ws id' Hun') as (err & Herr & Hnames).
    exists err, id'. rewrite (specLoadEach_head _ _ _ Hun'), Herr.
    split_and!; [done|apply list_elem_of_here|done..].
Qed.

(** *** Find, lookup by lookup *)

Section lookups.
Context `{GoTools}.

Lemma rangeInsert_Err_at {K V} `{Countable K} (f : K → outcome V) pre k post acc msg :
  (∀ k', k' ∈ pre → is_Ok (f k')) →
  f k = Err msg →
  rangeInsert f (pre ++ k :: post) acc = Err msg.
Proof.
  intros Hpre Hk.
  destruct (rangeInsert_first_failure f pre k post acc Hpre) as (o & -> & _ & Ho).
  - rewrite Hk. by intros [? ?].
  - rewrite Hk in Ho. destruct o; by subst.
Qed.




(** In a successful run, every requested method of every implementation is
    stored under its name, as [findMethodDeclAST] returned it. *)
Lemma Find_Ok_method query cfg loadedPkgs ifaceType pkg impls impl methodName result :
  LoadConfig query = Some cfg →
  packages_Load (ensureModes cfg) (Packages query) = (loadedPkgs, None) →
  findInterface loadedPkgs (InterfacePackage query) (InterfaceName query) = Ok ifaceType →
  pkg ∈ loadedPkgs →
  findInterfaceImplementations (Underlying ifaceType) pkg = Ok impls →
  impl ∈ impls →
  methodName ∈ Methods query →
  (Find query).2 = Ok result →
  ∃ methodDecls entry methods decl,
    pkgMethodBodyDecls pkg = Ok methodDecls ∧
    result !! pkg = Some entry ∧
    entry !! impl = Some methods ∧
    methods !! methodName = Some decl ∧
    findMethodDeclAST impl pkg methodName methodDecls = Ok decl.
Proof.
  intros Hcfg Hload Hiface Hpkg Himpls Himpl Hname Hfind.
  destruct (Find_Ok _ _ _ _ Hcfg Hload Hfind) as (ifaceType' & Hiface' & Hin & _).
  assert (ifaceType' = ifaceType) as -> by congruence.
  destruct (Hin pkg Hpkg) as (entry & Hentry & Hres).
  apply findInPackage_Ok in Hentry as (_ & impls' & Himpls' & Hasts).
  assert (impls' = impls) as -> by congruence.
  unfold loadPkgTypeMethodASTs in Hasts.
  apply bind_Ok in Hasts as (methodDecls & Hdecls & Hrange).
  rewrite rangeImpls_rangeInsert in Hrange.
  destruct (rangeInsert_Ok _ _ _ _ Hrange) as [Himplsok _].
  destruct (Himplsok impl Himpl) as (methods & Hmethods & Hlookup).
  unfold methodsOf in Hmethods. rewrite rangeMethodNames_rangeInsert in Hmethods.
  destruct (rangeInsert_Ok _ _ _ _ Hmethods) as [Hnamesok _].
  destruct (Hnamesok methodName Hname) as (decl & Hdecl & Hlookup').
  by exists methodDecls, entry, methods, decl.
Qed.

(** The first failing lookup of a package decides what the package yields. *)
Lemma findInPackage_first_failure ifaceType methods pkg methodDecls
    ipre impl ipost npre methodName npost msg :
  isInterface (Underlying ifaceType) = true →
  findInterfaceImplementations (Underlying ifaceType) pkg = Ok (ipre ++ impl :: ipost) →
  pkgMethodBodyDecls pkg = Ok methodDecls →
  (∀ i, i ∈ ipre → is_Ok (methodsOf pkg methodDecls methods i)) →
  methods = npre ++ methodName :: npost →
  (∀ n, n ∈ npre → is_Ok (findMethodDeclAST impl pkg n methodDecls)) →
  findMethodDeclAST impl pkg methodName methodDecls = Err msg →
  findInPackage ifaceType methods pkg = Err msg.
Proof.
  intros Hi Himpls Hdecls Hipre -> Hnpre Hfail.
  unfold findInPackage, assertInterface, loadPkgTypeMethodASTs.
  rewrite Hi; simpl. rewrite Himpls; simpl. rewrite Hdecls; simpl.
  rewrite rangeImpls_rangeInsert. apply rangeInsert_Err_at; [done|].
  unfold methodsOf. rewrite rangeMethodNames_rangeInsert.
  by apply rangeInsert_Err_at.
Qed.



(** The first failing package decides what [Find] returns. *)
Lemma Find_first_failure query cfg pre pkg post ifaceType msg :
  LoadConfig query = Some cfg →
  packages_Load (ensureModes cfg) (Packages query) = (pre ++ pkg :: post, None) →
  findInterface (pre ++ pkg :: post) (InterfacePackage query) (InterfaceName query)
    = Ok ifaceType →
  (∀ p, p ∈ pre → is_Ok (findInPackage ifaceType (Methods query) p)) →
  findInPackage ifaceType (Methods query) pkg = Err msg →
  (Find query).2 = Err msg.
Proof.
  intros Hcfg Hload Hiface Hpre Hfail.
  rewrite (Find_loaded _ _ _ Hcfg Hload), Hiface. simpl.
  rewrite rangePkgs_rangeInsert. by apply rangeInsert_Err_at.
Qed.

(** *** The order of the visit *)

(** The resolution step is what [Find] runs on the packages that
    [packages.Load] returned. *)
Lemma Find_resolution query cfg loadedPkgs :
  LoadConfig query = Some cfg →
  packages_Load (ensureModes cfg) (Packages query) = (loadedPkgs, None) →
  (Find query).2 =
    resolution loadedPkgs (InterfacePackage query) (InterfaceName query) (Methods query).
Proof. apply Find_loaded. Qed.






End lookups.

(** * The claims *)

(** Closed facts about the sample workspace are proved by evaluation. *)
Local Ltac evaluate := vm_compute; reflexivity.
Local Ltac decide_by_evaluation := apply (bool_decide_unpack _); vm_compute; exact I.

Lemma sample_loaded pkgs methods :
  LoadConfig (Shapes.queryOn pkgs methods) = Some Shapes.config.
Proof. reflexivity. Qed.

Section recorded_forms.
Context `{GoTools}.


End recorded_forms.



(** The same happens without an alias: in [embeds], the identifier of the
    embedded field of [struct { *Inner }] is of kind [Typ] and denotes
    pointer-to-[Inner], which is no type definition; the scan records it, so
    the entry holds [Inner] in both forms. *)
Lemma Find_records_pointer_of_embedded_field :
  findInterfaceImplementations (H := Shapes.tools) (Underlying Shapes.Shape) Shapes.embeds
    = Ok [Shapes.Inner; Shapes.Outer; Pointer Shapes.Inner] ∧
  ∃ result entry,
    (@Find Shapes.tools (Shapes.queryOn ["geo"; "embeds"] ["Area"])).2 = Ok result ∧
    result !! Shapes.embeds = Some entry ∧
    is_Some (entry !! Shapes.Inner) ∧
    is_Some (entry !! Pointer Shapes.Inner).
Proof.
  assert (@findInterfaceImplementations Shapes.tools (Underlying Shapes.Shape)
            Shapes.embeds = Ok [Shapes.Inner; Shapes.Outer; Pointer Shapes.Inner])
    as Hscan by evaluate.
  split; [done|].
  assert (isOkb (@Find Shapes.tools (Shapes.queryOn ["geo"; "embeds"] ["Area"])).2
          = true) as Hok by evaluate.
  destruct (isOkb_true _ Hok) as [result Hfind].
  assert (@packages_Load Shapes.tools (ensureModes (H := Shapes.tools) Shapes.config)
            ["geo"; "embeds"]
          = ([Shapes.geo; Shapes.embeds], None)) as Hload by evaluate.
  destruct (@Find_Ok Shapes.tools _ _ _ _ (sample_loaded _ _) Hload Hfind)
    as (ifaceType & Hiface & Hin & _).
  assert (ifaceType = Shapes.Shape) as ->.
  { assert (@findInterface Shapes.tools [Shapes.geo; Shapes.embeds] "geo" "Shape"
            = Ok Shapes.Shape) as Hi by evaluate.
    simpl in Hiface. congruence. }
  destruct (Hin Shapes.embeds) as (entry & Hentry & Hres);
    [apply list_elem_of_further, list_elem_of_here|].
  apply (@findInPackage_Ok Shapes.tools) in Hentry as (_ & impls & Himpls & Hasts).
  assert (impls = [Shapes.Inner; Shapes.Outer; Pointer Shapes.Inner]) as ->
    by congruence.
  exists result, entry. split_and!; [done..| |].
  - apply (@loadPkgTypeMethodASTs_dom Shapes.tools _ _ _ _ Hasts), list_elem_of_here.
  - apply (@loadPkgTypeMethodASTs_dom Shapes.tools _ _ _ _ Hasts).
    do 2 apply list_elem_of_further. apply list_elem_of_here.
Qed.

Section entries.
Context `{GoTools}.

(** C2. When [Find] succeeds, its result has an entry for every package that
    the load step returned, and for no other; the package that owns the
    interface is one of them; and the entry of a package in which no type
    implements the interface is the empty map, not a missing one. *)
Theorem Find_entry_for_every_package query cfg loadedPkgs result :
  LoadConfig query = Some cfg →
  packages_Load (ensureModes cfg) (Packages query) = (loadedPkgs, None) →
  (Find query).2 = Ok result →
  (∀ pkg, pkg ∈ loadedPkgs ↔ is_Some (result !! pkg)) ∧
  (∃ ifacePkg, ifacePkg ∈ loadedPkgs ∧ ID ifacePkg = InterfacePackage query ∧
     is_Some (result !! ifacePkg)) ∧
  (∃ ifaceType,
     findInterface loadedPkgs (InterfacePackage query) (InterfaceName query) = Ok ifaceType ∧
     ∀ pkg, pkg ∈ loadedPkgs →
       findInterfaceImplementations (Underlying ifaceType) pkg = Ok [] →
       result !! pkg = Some ∅).
Proof.
  intros Hcfg Hload Hfind.
  destruct (Find_Ok _ _ _ _ Hcfg Hload Hfind) as (ifaceType & Hiface & Hin & Hout).
  assert (∀ pkg, pkg ∈ loadedPkgs ↔ is_Some (result !! pkg)) as Hdom.
  { intros pkg. split.
    - intros (entry & _ & ->)%Hin. by eexists.
    - intros Hsome. destruct (decide (pkg ∈ loadedPkgs)) as [|Hnin]; [done|].
      rewrite (Hout pkg Hnin) in Hsome. by destruct Hsome. }
  split_and!; [done| |].
  - destruct (findInterface_Ok _ _ _ _ Hiface) as (ifacePkg & Hown).
    apply owningPackage_Some in Hown as [Hmem Hid].
    exists ifacePkg. split_and!; [done..|]. by apply Hdom.
  - exists ifaceType. split; [done|]. intros pkg Hmem Hnone.
    destruct (Hin pkg Hmem) as (entry & Hentry & ->).
    apply findInPackage_Ok in Hentry as (_ & impls & Himpls & Hload').
    rewrite Hnone in Himpls. injection Himpls as <-.
    by rewrite (loadPkgTypeMethodASTs_nil _ _ _ Hload').
Qed.

End entries.

(** On the sample workspace: [geo] and [shapes] both get an entry, that of
    [geo] is empty. *)
Lemma Find_entry_for_every_package_witness :
  ∃ result,
    (@Find Shapes.tools (Shapes.query ["Area"])).2 = Ok result ∧
    is_Some (result !! Shapes.shapes) ∧
    result !! Shapes.geo = Some ∅.
Proof.
  assert (isOkb (@Find Shapes.tools (Shapes.query ["Area"])).2 = true) as Hok
    by evaluate.
  destruct (isOkb_true _ Hok) as [result Hfind]. exists result. split; [done|].
  assert (@packages_Load Shapes.tools (ensureModes (H := Shapes.tools) Shapes.config)
            (Packages (Shapes.query ["Area"]))
          = ([Shapes.geo; Shapes.shapes], None)) as Hload
    by evaluate.
  destruct (@Find_entry_for_every_package Shapes.tools (Shapes.query ["Area"])
              Shapes.config [Shapes.geo; Shapes.shapes] result
              eq_refl Hload Hfind) as (Hdom & _ & ifaceType & Hiface & Hempty).
  split.
  - apply Hdom. apply list_elem_of_further, list_elem_of_here.
  - assert (ifaceType = Shapes.Shape) as ->.
    { assert (@findInterface Shapes.tools [Shapes.geo; Shapes.shapes] "geo" "Shape"
              = Ok Shapes.Shape) as Hi by evaluate.
      simpl in Hiface. congruence. }
    apply Hempty; [apply list_elem_of_here | evaluate].
Defined.

Section method_not_found.
Context `{GoTools}.

(** C3, amended. For an implementation found in a loaded package and a
    requested method name on which neither a field nor a method resolves:
    [findMethodDeclAST] returns an error that names the method and the type;
    [Find] returns no result; and when this lookup is the first to fail in
    the order of the run, the error that [Find] returns is this one. *)
Theorem Find_method_not_found
    query cfg loadedPkgs ifaceType pkg impls impl methodName :
  LoadConfig query = Some cfg →
  packages_Load (ensureModes cfg) (Packages query) = (loadedPkgs, None) →
  findInterface loadedPkgs (InterfacePackage query) (InterfaceName query) = Ok ifaceType →
  pkg ∈ loadedPkgs →
  findInterfaceImplementations (Underlying ifaceType) pkg = Ok impls →
  impl ∈ impls →
  methodName ∈ Methods query →
  types_LookupFieldOrMethod impl true (Types pkg) methodName = None →
  let msg := "did not find method " +:+ methodName +:+ " on type " +:+ Type_String impl in
  (∀ methodDecls, findMethodDeclAST impl pkg methodName methodDecls = Err msg) ∧
  names msg methodName ∧
  names msg (Type_String impl) ∧
  ¬ is_Ok (Find query).2 ∧
  (∀ pre post ipre ipost npre npost methodDecls,
     loadedPkgs = pre ++ pkg :: post →
     (∀ p, p ∈ pre → is_Ok (findInPackage ifaceType (Methods query) p)) →
     isInterface (Underlying ifaceType) = true →
     pkgMethodBodyDecls pkg = Ok methodDecls →
     impls = ipre ++ impl :: ipost →
     (∀ i, i ∈ ipre → is_Ok (methodsOf pkg methodDecls (Methods query) i)) →
     Methods query = npre ++ methodName :: npost →
     (∀ n, n ∈ npre → is_Ok (findMethodDeclAST impl pkg n methodDecls)) →
     (Find query).2 = Err msg).
Proof.
  intros Hcfg Hload Hiface Hpkg Himpls Himpl Hname Hlookup msg.
  assert (∀ methodDecls, findMethodDeclAST impl pkg methodName methodDecls = Err msg)
    as Hfail by (intros methodDecls; unfold findMethodDeclAST; by rewrite Hlookup).
  split_and!; [done| | | |].
  - apply (names_infix "did not find method " methodName).
  - unfold msg.
    change ("did not find method " +:+ methodName +:+ " on type " +:+ Type_String impl)
      with ("did not find method " +:+ (methodName +:+ (" on type " +:+ Type_String impl))).
    apply names_app_r, names_app_r, names_suffix.
  - intros [result Hfind].
    destruct (Find_Ok_method _ _ _ _ _ _ _ _ _ Hcfg Hload Hiface Hpkg Himpls Himpl
                Hname Hfind) as (methodDecls & _ & _ & decl & _ & _ & _ & _ & Hdecl).
    by rewrite Hfail in Hdecl.
  - intros pre post ipre ipost npre npost methodDecls -> Hpre Hi Hdecls -> Hipre Hnames
      Hnpre.
    apply (Find_first_failure _ _ _ _ _ _ _ Hcfg Hload Hiface Hpre).
    by apply (findInPackage_first_failure _ _ _ methodDecls ipre impl ipost
                npre methodName npost).
Qed.

End method_not_found.

(** With [Perimeter] requested, the first lookup that fails is that of
    [Perimeter] on [Circle], and [Find] returns its error. *)
Lemma Find_method_not_found_witness :
  (Find (H := Shapes.tools) (Shapes.query ["Area"; "Perimeter"])).2
    = Err "did not find method Perimeter on type shapes.Circle" ∧
  names "did not find method Perimeter on type shapes.Circle" "Perimeter" ∧
  names "did not find method Perimeter on type shapes.Circle" "shapes.Circle".
Proof.
  assert (@packages_Load Shapes.tools (ensureModes (H := Shapes.tools) Shapes.config)
            ["geo"; "shapes"]
          = ([Shapes.geo; Shapes.shapes], None)) as Hload by evaluate.
  assert (@findInterface Shapes.tools [Shapes.geo; Shapes.shapes] "geo" "Shape"
          = Ok Shapes.Shape) as Hiface by evaluate.
  assert (@findInterfaceImplementations Shapes.tools (Underlying Shapes.Shape)
            Shapes.shapes = Ok [Shapes.Circle; Pointer Shapes.Square]) as Himpls
    by evaluate.
  assert (@types_LookupFieldOrMethod Shapes.tools Shapes.Circle true
            (Types Shapes.shapes) "Perimeter" = None) as Hlookup by evaluate.
  assert (isOkb (pkgMethodBodyDecls Shapes.shapes) = true) as Hok by evaluate.
  destruct (isOkb_true _ Hok) as [methodDecls Hdecls].
  assert (Shapes.shapes ∈ [Shapes.geo; Shapes.shapes]) as Hpkg
    by apply list_elem_of_further, list_elem_of_here.
  assert (Shapes.Circle ∈ [Shapes.Circle; Pointer Shapes.Square]) as Himpl
    by apply list_elem_of_here.
  assert ("Perimeter" ∈ Methods (Shapes.query ["Area"; "Perimeter"])) as Hname
    by apply list_elem_of_further, list_elem_of_here.
  destruct (@Find_method_not_found Shapes.tools (Shapes.query ["Area"; "Perimeter"])
              Shapes.config [Shapes.geo; Shapes.shapes] Shapes.Shape Shapes.shapes
              [Shapes.Circle; Pointer Shapes.Square] Shapes.Circle "Perimeter"
              eq_refl Hload Hiface Hpkg Himpls Himpl Hname Hlookup)
    as (_ & Hmethod & Htype & _ & Hfirst).
  split_and!; [|exact Hmethod|exact Htype].
  apply (Hfirst [Shapes.geo] [] [] [Pointer Shapes.Square] ["Area"] [] methodDecls).
  - reflexivity.
  - intros p ->%list_elem_of_singleton. apply isOkb_true. evaluate.
  - reflexivity.
  - exact Hdecls.
  - reflexivity.
  - by intros i ?%elem_of_nil.
  - reflexivity.
  - intros n ->%list_elem_of_singleton.
    assert (isOkb (methodDecls' ← pkgMethodBodyDecls Shapes.shapes;
                   findMethodDeclAST (H := Shapes.tools) Shapes.Circle Shapes.shapes
                     "Area" methodDecls') = true) as Harea by evaluate.
    rewrite Hdecls in Harea. by apply isOkb_true.
Defined.

(** C3 as stated fails when two lookups fail: with [Perimeter] and [Volume]
    requested, nothing resolves for [Volume] on the implementation [Circle],
    and the error that [Find] returns does not name [Volume]. *)
Lemma Find_names_first_failure_only :
  findInterfaceImplementations (H := Shapes.tools) (Underlying Shapes.Shape) Shapes.shapes
    = Ok [Shapes.Circle; Pointer Shapes.Square] ∧
  "Volume" ∈ Methods (Shapes.query ["Perimeter"; "Volume"]) ∧
  types_LookupFieldOrMethod (GoTools := Shapes.tools) Shapes.Circle true
    (Types Shapes.shapes) "Volume" = None ∧
  ∃ msg,
    (Find (H := Shapes.tools) (Shapes.query ["Perimeter"; "Volume"])).2 = Err msg ∧
    ¬ names msg "Volume".
Proof.
  split_and!; [evaluate| |evaluate|].
  - apply list_elem_of_further, list_elem_of_here.
  - exists "did not find method Perimeter on type shapes.Circle". split.
    + apply errorOf_Some. evaluate.
    + unfold names. vm_compute. discriminate.
Qed.

(** The other way in which the error fails to name the method: a requested
    name that resolves to a field. [R] is a field of [Circle]; the failed
    assertion leaves [method] nil, and the message prints that. *)
Lemma Find_field_error_does_not_name_it :
  ∃ msg,
    (Find (H := Shapes.tools) (Shapes.query ["R"])).2 = Err msg ∧
    msg = "field <nil> on type shapes.Circle should be a function" ∧
    ¬ names msg "R".
Proof.
  exists "field <nil> on type shapes.Circle should be a function". split_and!.
  - apply errorOf_Some. evaluate.
  - done.
  - unfold names. vm_compute. discriminate.
Qed.

Section body_position.
Context `{GoTools}.


End body_position.



Section interface_location.
Context `{GoTools}.

(** C5. With the packages loaded: when no loaded package has the identifier
    [InterfacePackage], or the package that has it holds no type-kind
    definition named [InterfaceName], [findInterface] returns an error and
    [Find] returns that error and no result. *)
Theorem Find_interface_not_found query cfg loadedPkgs :
  LoadConfig query = Some cfg →
  packages_Load (ensureModes cfg) (Packages query) = (loadedPkgs, None) →
  (∀ pkg, pkg ∈ loadedPkgs → ID pkg ≠ InterfacePackage query) ∨
  (∃ ifacePkg,
     owningPackage loadedPkgs (InterfacePackage query) = Some ifacePkg ∧
     ∀ d, d ∈ Defs ifacePkg → isTypeIdentNamed (InterfaceName query) d.1 = false) →
  ∃ msg,
    findInterface loadedPkgs (InterfacePackage query) (InterfaceName query) = Err msg ∧
    (Find query).2 = Err msg.
Proof.
  intros Hcfg Hload Hcases.
  assert (is_Err (findInterface loadedPkgs (InterfacePackage query)
                    (InterfaceName query))) as [msg Hmsg].
  { rewrite findInterface_owningPackage.
    destruct Hcases as [Hnone%owningPackage_None|(ifacePkg & -> & Hdefs)].
    - rewrite Hnone. by eexists.
    - apply rangeDefsForInterface_None in Hdefs. rewrite Hdefs. by eexists. }
  exists msg. split; [done|].
  by rewrite (Find_loaded _ _ _ Hcfg Hload), Hmsg.
Qed.

End interface_location.

(** On the sample workspace: no package [solids] is loaded, and [geo] has no
    type named [Volume]. *)
Lemma Find_interface_not_found_witness :
  is_Err (@Find Shapes.tools
            {| LoadConfig := Some Shapes.config; Packages := ["geo"; "shapes"];
               InterfacePackage := "solids"; InterfaceName := "Shape";
               Methods := ["Area"] |}).2 ∧
  is_Err (@Find Shapes.tools
            {| LoadConfig := Some Shapes.config; Packages := ["geo"; "shapes"];
               InterfacePackage := "geo"; InterfaceName := "Volume";
               Methods := ["Area"] |}).2.
Proof.
  assert (@packages_Load Shapes.tools (ensureModes (H := Shapes.tools) Shapes.config)
            ["geo"; "shapes"]
          = ([Shapes.geo; Shapes.shapes], None)) as Hload by evaluate.
  split.
  - destruct (@Find_interface_not_found Shapes.tools
                {| LoadConfig := Some Shapes.config; Packages := ["geo"; "shapes"];
                   InterfacePackage := "solids"; InterfaceName := "Shape";
                   Methods := ["Area"] |}
                Shapes.config [Shapes.geo; Shapes.shapes] eq_refl Hload)
      as (msg & _ & Hmsg); [|by exists msg].
    left. intros pkg Hpkg. simpl.
    repeat (apply elem_of_cons in Hpkg as [->|Hpkg]; [done|]).
    by apply elem_of_nil in Hpkg.
  - destruct (@Find_interface_not_found Shapes.tools
                {| LoadConfig := Some Shapes.config; Packages := ["geo"; "shapes"];
                   InterfacePackage := "geo"; InterfaceName := "Volume";
                   Methods := ["Area"] |}
                Shapes.config [Shapes.geo; Shapes.shapes] eq_refl Hload)
      as (msg & _ & Hmsg); [|by exists msg].
    right. exists Shapes.geo. split; [evaluate|]. intros d Hd. simpl in Hd.
    repeat (apply elem_of_cons in Hd as [->|Hd]; [evaluate|]).
    by apply elem_of_nil in Hd.
Defined.

Section load_step.
Context `{GoTools}.

(** C6. With the load step as the specification words it: when a requested
    package cannot be found, fails to parse or fails to type-check, the load
    step fails with an error that names such a package, and [Find] returns
    that error, wrapped, and no result. *)
Theorem Find_load_error ws query cfg id :
  packages_Load = specLoad ws →
  LoadConfig query = Some cfg →
  id ∈ Packages query →
  unloadable ws id →
  ∃ err offending,
    packages_Load (ensureModes cfg) (Packages query) = ([], Some err) ∧
    offending ∈ Packages query ∧ unloadable ws offending ∧ names err offending ∧
    (Find query).2 = Err ("failed to load project packages: " +:+ err) ∧
    names ("failed to load project packages: " +:+ err) offending.
Proof.
  intros Hspec Hcfg Hin Hun.
  destruct (specLoadEach_fails ws _ _ Hin Hun) as (err & offending & Hload & ? & ? & ?).
  exists err, offending.
  assert (packages_Load (ensureModes cfg) (Packages query) = ([], Some err)) as Hload'
    by (by rewrite Hspec).
  split_and!; [done..| |by apply names_app_r].
  unfold Find, resolve. by rewrite Hcfg; simpl; rewrite Hload'.
Qed.

End load_step.

(** The sources of [broken] fail to type-check. *)
Lemma Find_load_error_witness :
  ∃ msg,
    (@Find Shapes.tools (Shapes.queryOn ["geo"; "broken"; "shapes"] ["Area"])).2 = Err msg ∧
    names msg "broken".
Proof.
  destruct (@Find_load_error Shapes.tools Shapes.workspace
              (Shapes.queryOn ["geo"; "broken"; "shapes"] ["Area"])
              Shapes.config "broken" eq_refl eq_refl)
    as (err & offending & Hload & _ & _ & _ & Hfind & _).
  - apply list_elem_of_further, list_elem_of_here.
  - assert (Shapes.workspace !! "broken" = Some TypeCheckFailure) as Hbroken
      by evaluate.
    intros pkg. by rewrite Hbroken.
  - eexists. split; [exact Hfind|].
    assert (err = "package broken failed to type-check") as ->.
    { assert (@packages_Load Shapes.tools (ensureModes (H := Shapes.tools) Shapes.config)
                ["geo"; "broken"; "shapes"]
              = ([], Some "package broken failed to type-check")) as Hl by evaluate.
      pose proof (eq_trans (eq_sym Hl) Hload) as Heq. by injection Heq. }
    evaluate.
Defined.

Section frame.
Context `{GoTools}.

(** C7, amended. [Find] leaves [Packages], [InterfacePackage],
    [InterfaceName] and [Methods] of the caller's query as they were, and a
    query without a configuration altogether. It writes through
    [LoadConfig]: it adds the required modes to [Mode], sets [Fset] to a new
    file set when it was nil, and leaves [Dir]; and it hands the
    configuration to [packages.Load], which adds the files that it parses to
    the file set. The caller finds the query as it was exactly when the
    configuration had the required modes and a file set, and the load leaves
    that file set as it was. The loaded packages are handed back, as the
    keys of the result, as the load returned them. *)
Theorem Find_frame query :
  Packages (Find query).1 = Packages query ∧
  InterfacePackage (Find query).1 = InterfacePackage query ∧
  InterfaceName (Find query).1 = InterfaceName query ∧
  Methods (Find query).1 = Methods query ∧
  (LoadConfig query = None → (Find query).1 = query) ∧
  (∀ cfg, LoadConfig query = Some cfg →
     ∃ cfg',
       LoadConfig (Find query).1 = Some cfg' ∧
       Mode cfg' = Z.lor (Mode cfg) requiredModes ∧
       Dir cfg' = Dir cfg ∧
       Fset cfg' = Some (packages_Load_Fset (ensureModes cfg) (Packages query)
                           (default token_NewFileSet (Fset cfg))) ∧
       ((Find query).1 = query ↔
          Z.land (Mode cfg) requiredModes = requiredModes ∧
          ∃ fset, Fset cfg = Some fset ∧
                  packages_Load_Fset (ensureModes cfg) (Packages query) fset = fset)) ∧
  (∀ cfg loadedPkgs result,
     LoadConfig query = Some cfg →
     packages_Load (ensureModes cfg) (Packages query) = (loadedPkgs, None) →
     (Find query).2 = Ok result →
     ∀ pkg, is_Some (result !! pkg) ↔ pkg ∈ loadedPkgs).
Proof.
  assert (∀ cfg loadedPkgs result,
     LoadConfig query = Some cfg →
     packages_Load (ensureModes cfg) (Packages query) = (loadedPkgs, None) →
     (Find query).2 = Ok result →
     ∀ pkg, is_Some (result !! pkg) ↔ pkg ∈ loadedPkgs) as Hkeys.
  { intros cfg loadedPkgs result Hcfg Hload Hfind pkg.
    destruct (Find_Ok _ _ _ _ Hcfg Hload Hfind) as (ifaceType & _ & Hin & Hout). split.
    - intros Hsome. destruct (decide (pkg ∈ loadedPkgs)) as [|Hnin]; [done|].
      rewrite (Hout pkg Hnin) in Hsome. by destruct Hsome.
    - intros (entry & _ & ->)%Hin. by eexists. }
  revert Hkeys.
  assert (∀ a b, Z.lor a b = a ↔ Z.land a b = b) as Hbits.
  { intros a b. split; intros Heq.
    - rewrite <-Heq at 1. apply Z.bits_inj'. intros n _.
      rewrite Z.land_spec, Z.lor_spec. by destruct (Z.testbit a n), (Z.testbit b n).
    - rewrite <-Heq. apply Z.bits_inj'. intros n _.
      rewrite Z.lor_spec, Z.land_spec. by destruct (Z.testbit a n), (Z.testbit b n). }
  destruct query as [config pkgs path name methods]. unfold Find. simpl.
  destruct config as [cfg|]; simpl; intros Hkeys; split_and!; try done.
  intros ? [= <-]. destruct cfg as [mode dir fset].
  eexists. split; [done|].
  unfold afterLoad, ensureModes. simpl.
  destruct fset as [fset|]; simpl; (split_and!; [done..|]); split.
  - intros [= Hmode Hfset]. split; [by apply Hbits|]. by exists fset.
  - intros [Hmode (? & [= <-] & Hfset)]. apply Hbits in Hmode. by rewrite Hfset, Hmode.
  - intros [= _ ?].
  - by intros [_ (? & ? & _)].
Qed.

End frame.

(** C7 as stated fails: the caller's configuration had no mode and no file
    set before the call; after it, it has the seven required modes and a
    file set, and that file set holds the two files that were parsed. *)
Lemma Find_modifies_LoadConfig :
  LoadConfig (Shapes.query ["Area"]) =
    Some {| Mode := 0; Dir := "."; Fset := None |} ∧
  LoadConfig (@Find Shapes.tools (Shapes.query ["Area"])).1 =
    Some {| Mode := 475; Dir := ".";
            Fset := Some {| Base := 401; FileNames := ["geo.go"; "shapes.go"] |} |} ∧
  (@Find Shapes.tools (Shapes.query ["Area"])).1 ≠ Shapes.query ["Area"].
Proof.
  assert (LoadConfig (@Find Shapes.tools (Shapes.query ["Area"])).1 =
    Some {| Mode := 475; Dir := ".";
            Fset := Some {| Base := 401; FileNames := ["geo.go"; "shapes.go"] |} |})
    as Hafter by evaluate.
  split_and!; [reflexivity|done|].
  intros Heq. rewrite Heq in Hafter. discriminate Hafter.
Qed.

(** A configuration that has the required modes and a file set is written
    to as well: the file set is the caller's, and the load adds the parsed
    files to it. *)
Lemma Find_adds_files_to_the_file_set :
  let query := {| LoadConfig := Some {| Mode := 475; Dir := ".";
                                        Fset := Some Reference.NewFileSet |};
                  Packages := ["geo"; "shapes"];
                  InterfacePackage := "geo"; InterfaceName := "Shape";
                  Methods := ["Area"] |} in
  LoadConfig (@Find Shapes.tools query).1 =
    Some {| Mode := 475; Dir := ".";
            Fset := Some {| Base := 401; FileNames := ["geo.go"; "shapes.go"] |} |} ∧
  (@Find Shapes.tools query).1 ≠ query.
Proof.
  intros query.
  assert (LoadConfig (@Find Shapes.tools query).1 =
    Some {| Mode := 475; Dir := ".";
            Fset := Some {| Base := 401; FileNames := ["geo.go"; "shapes.go"] |} |})
    as Hafter by evaluate.
  split; [done|].
  intros Heq. rewrite Heq in Hafter. discriminate Hafter.
Qed.

Section visit_order.
Context `{GoTools}.


End visit_order.



Section nil_configuration.
Context `{GoTools}.

(** C9. [Find] dereferences [query.LoadConfig] before anything else: with a
    nil [LoadConfig] it panics, returns no error, and leaves the query as it
    was. *)
Theorem Find_nil_LoadConfig_panics query :
  LoadConfig query = None → Find query = (query, Panic).
Proof. intros Hnil. unfold Find. by rewrite Hnil. Qed.

End nil_configuration.

Lemma Find_nil_LoadConfig_panics_witness :
  let query := {| LoadConfig := None; Packages := ["geo"; "shapes"];
                  InterfacePackage := "geo"; InterfaceName := "Shape";
                  Methods := ["Area"] |} in
  @Find Shapes.tools query = (query, Panic).
Proof. intros query. apply (@Find_nil_LoadConfig_panics Shapes.tools query). reflexivity. Defined.

Section bodyless_methods.
Context `{GoTools}.

(** C10. When a file of the package holds a top-level function declaration
    that has a receiver and no body, building the index of method
    declarations panics, and so does the retrieval of declarations for the
    package, whatever the implementations and the method names, and with it
    the pass of [Find] over the package; the index has no error outcome at
    all. *)
Theorem pkgMethodBodyDecls_panics_without_body pkg astFile declFunc :
  astFile ∈ Syntax pkg →
  DFunc declFunc ∈ Decls astFile →
  is_Some (Recv declFunc) →
  Body declFunc = None →
  pkgMethodBodyDecls pkg = Panic ∧
  (∀ impls methodNames, loadPkgTypeMethodASTs impls pkg methodNames = Panic) ∧
  (∀ ifaceType methods, findInPackage ifaceType methods pkg = Panic) ∧
  (∀ pkg' msg, pkgMethodBodyDecls pkg' ≠ Err msg).
Proof.
  intros Hfile Hdecl Hrecv Hbody.
  assert (pkgMethodBodyDecls pkg = Panic) as Hpanic.
  { apply pkgMethodBodyDecls_Panic, Exists_exists. exists (DFunc declFunc).
    split; [|done]. apply list_elem_of_bind. by exists astFile. }
  assert (∀ impls methodNames, loadPkgTypeMethodASTs impls pkg methodNames = Panic)
    as Hasts.
  { intros impls methodNames. unfold loadPkgTypeMethodASTs. by rewrite Hpanic. }
  split_and!; [done..| |].
  - intros ifaceType methods. unfold findInPackage, assertInterface.
    destruct (isInterface (Underlying ifaceType)); simpl; [|done].
    rewrite findInterfaceImplementations_spec.
    destruct (decide _); simpl; [done | apply Hasts].
  - intros pkg' msg. apply pkgMethodBodyDecls_no_Err.
Qed.

End bodyless_methods.

(** The package [external] declares [func (p Plate) Area() float64] without
    a body; [Find] panics on it. *)
Lemma pkgMethodBodyDecls_panics_without_body_witness :
  @pkgMethodBodyDecls Shapes.external = Panic ∧
  isPanicb (@Find Shapes.tools (Shapes.queryOn ["geo"; "external"] ["Area"])).2 = true.
Proof.
  split; [|evaluate].
  eapply (@pkgMethodBodyDecls_panics_without_body Shapes.tools Shapes.external).
  - apply list_elem_of_here.
  - apply list_elem_of_here.
  - simpl. by eexists.
  - reflexivity.
Defined.

(** * Further properties of the package *)

(** *** More on loops that fill a map *)

(** Pointwise agreeing bodies give agreeing loops. *)
Lemma rangeInsert_agree {K V} `{Countable K} (f g : K → outcome V) ks acc :
  (∀ k, k ∈ ks → agree (f k) (g k)) →
  (∀ k, k ∈ ks → f k ≠ Panic) →
  agree (rangeInsert f ks acc) (rangeInsert g ks acc).
Proof.
  revert acc. induction ks as [|k ks IH]; intros acc Hfg Hnp; simpl; [done|].
  pose proof (Hfg k (list_elem_of_here _ _)) as Hk.
  pose proof (Hnp k (list_elem_of_here _ _)) as Hnk.
  destruct (f k) as [v|msg|] eqn:Hf; destruct (g k) as [v'|msg'|] eqn:Hg;
    simpl in *; try done.
  subst v'. apply IH.
  - intros k' ?. apply Hfg. by apply list_elem_of_further.
  - intros k' ?. apply Hnp. by apply list_elem_of_further.
Qed.

(** Only the set of the keys matters, not their order or multiplicity. *)
Lemma rangeInsert_same_elements {K V} `{Countable K} (f : K → outcome V) ks ks' acc :
  (∀ k, k ∈ ks ↔ k ∈ ks') →
  (∀ k, k ∈ ks → f k ≠ Panic) →
  agree (rangeInsert f ks acc) (rangeInsert f ks' acc).
Proof.
  intros Hsame Hnp.
  destruct (rangeInsert f ks acc) as [m|msg|] eqn:Hm;
    destruct (rangeInsert f ks' acc) as [m'|msg'|] eqn:Hm'; simpl; try done.
  - destruct (rangeInsert_Ok _ _ _ _ Hm) as [H1 H2].
    destruct (rangeInsert_Ok _ _ _ _ Hm') as [H1' H2'].
    apply map_eq. intros k. destruct (decide (k ∈ ks)) as [Hin|Hnin].
    + destruct (H1 k Hin) as (v & Hv & ->).
      destruct (H1' k) as (v' & Hv' & ->); [by apply Hsame|]. congruence.
    + rewrite H2, H2'; [done| by rewrite <-Hsame | done].
  - destruct (rangeInsert_Err _ _ _ _ Hm') as (pre & k & post & Hks & _ & Hk).
    destruct (rangeInsert_Ok _ _ _ _ Hm) as [H1 _].
    destruct (H1 k) as (v & Hv & _); [|congruence].
    apply Hsame. rewrite Hks. apply elem_of_app. right. apply list_elem_of_here.
  - destruct (rangeInsert_Panic _ _ _ Hm') as (k & Hin & Hk).
    apply (Hnp k); [by apply Hsame | done].
  - destruct (rangeInsert_Err _ _ _ _ Hm) as (pre & k & post & Hks & _ & Hk).
    destruct (rangeInsert_Ok _ _ _ _ Hm') as [H1 _].
    destruct (H1 k) as (v & Hv & _); [|congruence].
    apply Hsame. rewrite Hks. apply elem_of_app. right. apply list_elem_of_here.
  - destruct (rangeInsert_Panic _ _ _ Hm') as (k & Hin & Hk).
    apply (Hnp k); [by apply Hsame | done].
  - destruct (rangeInsert_Panic _ _ _ Hm) as (k & Hin & Hk). by apply (Hnp k).
  - destruct (rangeInsert_Panic _ _ _ Hm) as (k & Hin & Hk). by apply (Hnp k).
Qed.

Section results.
Context `{GoTools}.

(** The entry of a loaded package in a successful run. *)
Lemma Find_Ok_entry query cfg loadedPkgs result pkg entry :
  LoadConfig query = Some cfg →
  packages_Load (ensureModes cfg) (Packages query) = (loadedPkgs, None) →
  (Find query).2 = Ok result →
  result !! pkg = Some entry →
  ∃ ifaceType impls methodDecls,
    findInterface loadedPkgs (InterfacePackage query) (InterfaceName query) = Ok ifaceType ∧
    pkg ∈ loadedPkgs ∧
    isInterface (Underlying ifaceType) = true ∧
    findInterfaceImplementations (Underlying ifaceType) pkg = Ok impls ∧
    pkgMethodBodyDecls pkg = Ok methodDecls ∧
    rangeInsert (methodsOf pkg methodDecls (Methods query)) impls ∅ = Ok entry.
Proof.
  intros Hcfg Hload Hfind Hentry.
  destruct (Find_Ok _ _ _ _ Hcfg Hload Hfind) as (ifaceType & Hiface & Hin & Hout).
  assert (pkg ∈ loadedPkgs) as Hpkg.
  { destruct (decide (pkg ∈ loadedPkgs)) as [|Hnin]; [done|].
    by rewrite (Hout pkg Hnin) in Hentry. }
  destruct (Hin pkg Hpkg) as (entry' & Hentry' & Hres).
  assert (entry' = entry) as -> by congruence.
  apply findInPackage_Ok in Hentry' as (Hi & impls & Himpls & Hasts).
  unfold loadPkgTypeMethodASTs in Hasts.
  apply bind_Ok in Hasts as (methodDecls & Hdecls & Hrange).
  rewrite rangeImpls_rangeInsert in Hrange.
  by exists ifaceType, impls, methodDecls.
Qed.

(** X1. In a successful run every key of every entry is a type that
    implements the interface and whose underlying type is not an interface;
    it is the type of a type-kind definition of the package, or the pointer
    to one that does not itself implement the interface. *)
Theorem Find_keys_implement query cfg loadedPkgs result pkg entry t :
  LoadConfig query = Some cfg →
  packages_Load (ensureModes cfg) (Packages query) = (loadedPkgs, None) →
  (Find query).2 = Ok result →
  result !! pkg = Some entry →
  is_Some (entry !! t) →
  ∃ ifaceType,
    findInterface loadedPkgs (InterfacePackage query) (InterfaceName query) = Ok ifaceType ∧
    isInterface (Underlying t) = false ∧
    types_Implements t (Underlying ifaceType) = true ∧
    (t ∈ typeDefs pkg ∨
     ∃ typ, t = Pointer typ ∧ typ ∈ typeDefs pkg ∧
            types_Implements typ (Underlying ifaceType) = false).
Proof.
  intros Hcfg Hload Hfind Hentry Hkey.
  destruct (Find_Ok_entry _ _ _ _ _ _ Hcfg Hload Hfind Hentry)
    as (ifaceType & impls & methodDecls & Hiface & _ & _ & Himpls & _ & Hrange).
  exists ifaceType. split; [done|].
  assert (t ∈ impls) as Ht.
  { destruct (rangeInsert_Ok _ _ _ _ Hrange) as [_ Hother].
    destruct (decide (t ∈ impls)) as [|Hnin]; [done|].
    rewrite (Hother t Hnin), lookup_empty in Hkey. by destruct Hkey. }
  apply (elem_of_implementations _ _ _ _ Himpls) in Ht as (typ & Htyp & Hrec).
  unfold recordedForm in Hrec.
  destruct (isInterface (Underlying typ)) eqn:Hi; [done|].
  destruct (types_Implements typ (Underlying ifaceType)) eqn:Hv.
  - injection Hrec as <-. split_and!; [done..|by left].
  - destruct (types_Implements (Pointer typ) (Underlying ifaceType)) eqn:Hp; [|done].
    injection Hrec as <-. split_and!; [done..|]. right. by exists typ.
Qed.

(** X2. In a successful run the methods stored for an implementation are
    exactly the requested ones: a name has a declaration iff it was
    requested, and the declaration is the one that [findMethodDeclAST]
    returns for it. *)
Theorem Find_methods_are_the_requested query cfg loadedPkgs result pkg entry impl methods :
  LoadConfig query = Some cfg →
  packages_Load (ensureModes cfg) (Packages query) = (loadedPkgs, None) →
  (Find query).2 = Ok result →
  result !! pkg = Some entry →
  entry !! impl = Some methods →
  (∀ name, is_Some (methods !! name) ↔ name ∈ Methods query) ∧
  ∃ methodDecls,
    pkgMethodBodyDecls pkg = Ok methodDecls ∧
    ∀ name decl, methods !! name = Some decl →
      findMethodDeclAST impl pkg name methodDecls = Ok decl.
Proof.
  intros Hcfg Hload Hfind Hentry Himpl.
  destruct (Find_Ok_entry _ _ _ _ _ _ Hcfg Hload Hfind Hentry)
    as (ifaceType & impls & methodDecls & _ & _ & _ & _ & Hdecls & Hrange).
  destruct (rangeInsert_Ok _ _ _ _ Hrange) as [Hin Hout].
  assert (impl ∈ impls) as Himpls.
  { destruct (decide (impl ∈ impls)) as [|Hnin]; [done|].
    by rewrite (Hout impl Hnin), lookup_empty in Himpl. }
  destruct (Hin impl Himpls) as (methods' & Hmethods & Hlookup).
  assert (methods' = methods) as -> by congruence.
  unfold methodsOf in Hmethods. rewrite rangeMethodNames_rangeInsert in Hmethods.
  destruct (rangeInsert_Ok _ _ _ _ Hmethods) as [Hnames Hothers].
  assert (∀ name, is_Some (methods !! name) ↔ name ∈ Methods query) as Hdom.
  { intros name. split.
    - intros Hsome. destruct (decide (name ∈ Methods query)) as [|Hnin]; [done|].
      rewrite (Hothers name Hnin), lookup_empty in Hsome. by destruct Hsome.
    - intros (decl & _ & ->)%Hnames. by eexists. }
  split; [done|]. exists methodDecls. split; [done|].
  intros name decl Hdecl.
  destruct (Hnames name) as (decl' & Hdecl' & Hlookup'); [apply Hdom; by eexists|].
  congruence.
Qed.

End results.

(** The run over [geo] and [shapes] with [Area] requested, and the entry of
    [shapes] in its result. *)
Lemma sample_shapes_entry :
  ∃ result entry,
    (Find (H := Shapes.tools) (Shapes.query ["Area"])).2 = Ok result ∧
    packages_Load (GoTools := Shapes.tools) (ensureModes (H := Shapes.tools) Shapes.config)
      (Packages (Shapes.query ["Area"])) = ([Shapes.geo; Shapes.shapes], None) ∧
    findInterface (H := Shapes.tools) [Shapes.geo; Shapes.shapes] "geo" "Shape"
      = Ok Shapes.Shape ∧
    result !! Shapes.shapes = Some entry ∧
    ∀ t, is_Some (entry !! t) ↔ t ∈ [Shapes.Circle; Pointer Shapes.Square].
Proof.
  assert (isOkb (@Find Shapes.tools (Shapes.query ["Area"])).2 = true) as Hok
    by evaluate.
  destruct (isOkb_true _ Hok) as [result Hfind].
  assert (@packages_Load Shapes.tools (ensureModes (H := Shapes.tools) Shapes.config)
            (Packages (Shapes.query ["Area"]))
          = ([Shapes.geo; Shapes.shapes], None)) as Hload by evaluate.
  assert (@findInterface Shapes.tools [Shapes.geo; Shapes.shapes] "geo" "Shape"
          = Ok Shapes.Shape) as Hshape by evaluate.
  destruct (@Find_Ok Shapes.tools _ _ _ _ (sample_loaded _ _) Hload Hfind)
    as (ifaceType & Hiface & Hin & _).
  assert (ifaceType = Shapes.Shape) as ->.
  { pose proof (eq_trans (eq_sym Hshape) Hiface) as Heq. by injection Heq. }
  destruct (Hin Shapes.shapes) as (entry & Hentry & Hres);
    [apply list_elem_of_further, list_elem_of_here|].
  apply (@findInPackage_Ok Shapes.tools) in Hentry as (_ & impls & Himpls & Hasts).
  assert (impls = [Shapes.Circle; Pointer Shapes.Square]) as ->.
  { assert (@findInterfaceImplementations Shapes.tools (Underlying Shapes.Shape)
              Shapes.shapes = Ok [Shapes.Circle; Pointer Shapes.Square]) as Hi
      by evaluate.
    congruence. }
  exists result, entry. split_and!; [done..|].
  apply (@loadPkgTypeMethodASTs_dom Shapes.tools _ _ _ _ Hasts).
Qed.

(** In [shapes], the key pointer-to-[Square] implements [geo.Shape]. *)
Lemma Find_keys_implement_witness :
  ∃ result entry,
    (Find (H := Shapes.tools) (Shapes.query ["Area"])).2 = Ok result ∧
    result !! Shapes.shapes = Some entry ∧
    is_Some (entry !! Pointer Shapes.Square) ∧
    types_Implements (GoTools := Shapes.tools) (Pointer Shapes.Square)
      (Underlying Shapes.Shape) = true.
Proof.
  destruct sample_shapes_entry as (result & entry & Hfind & Hload & Hshape & Hentry & Hdom).
  assert (is_Some (entry !! Pointer Shapes.Square)) as Hkey
    by (apply Hdom; apply list_elem_of_further, list_elem_of_here).
  destruct (@Find_keys_implement Shapes.tools (Shapes.query ["Area"]) Shapes.config
              [Shapes.geo; Shapes.shapes] result Shapes.shapes entry
              (Pointer Shapes.Square) eq_refl Hload Hfind Hentry Hkey)
    as (ifaceType & Hiface & _ & Himpl & _).
  assert (ifaceType = Shapes.Shape) as ->.
  { pose proof (eq_trans (eq_sym Hshape) Hiface) as Heq. by injection Heq. }
  by exists result, entry.
Defined.

(** For [Circle] in [shapes], [Area] is stored and [Perimeter] is not. *)
Lemma Find_methods_are_the_requested_witness :
  ∃ result entry methods,
    (Find (H := Shapes.tools) (Shapes.query ["Area"])).2 = Ok result ∧
    result !! Shapes.shapes = Some entry ∧
    entry !! Shapes.Circle = Some methods ∧
    is_Some (methods !! "Area") ∧
    methods !! "Perimeter" = None.
Proof.
  destruct sample_shapes_entry as (result & entry & Hfind & Hload & Hshape & Hentry & Hdom).
  assert (is_Some (entry !! Shapes.Circle)) as [methods Hmethods]
    by (apply Hdom; apply list_elem_of_here).
  destruct (@Find_methods_are_the_requested Shapes.tools (Shapes.query ["Area"])
              Shapes.config [Shapes.geo; Shapes.shapes] result Shapes.shapes entry
              Shapes.Circle methods eq_refl Hload Hfind Hentry Hmethods)
    as (Hnames & _).
  exists result, entry, methods. split_and!; [done..| |].
  - apply Hnames. apply list_elem_of_here.
  - apply eq_None_not_Some. intros Hsome%Hnames. simpl in Hsome.
    apply list_elem_of_singleton in Hsome. discriminate Hsome.
Defined.

Section success.
Context `{GoTools}.

Lemma findMethodDeclAST_Ok impl pkg methodName methodDecls decl :
  findMethodDeclAST impl pkg methodName methodDecls = Ok decl ↔
  ∃ method scope,
    types_LookupFieldOrMethod impl true (Types pkg) methodName = Some (OFunc method) ∧
    FuncScope method = Some scope ∧
    methodDecls !! ScopePos scope = Some decl.
Proof.
  unfold findMethodDeclAST.
  destruct (types_LookupFieldOrMethod impl true (Types pkg) methodName)
    as [[? ?|? ?|method]|]; split; try done; try by intros (? & ? & ? & ?).
  - destruct (FuncScope method) as [scope|] eqn:Hscope; [|done].
    destruct (methodDecls !! ScopePos scope) eqn:Hd; [|done].
    intros [= <-]. by exists method, scope.
  - intros (method' & scope & [= <-] & -> & ->). done.
Qed.

Lemma pkgMethodBodyDecls_is_Ok pkg :
  is_Ok (pkgMethodBodyDecls pkg) ↔ ¬ Exists bodylessMethod (allDecls pkg).
Proof.
  rewrite pkgMethodBodyDecls_flat. split.
  - intros [m Hm] Hex. by rewrite (rangeDecls_Panic _ _ Hex) in Hm.
  - intros Hnex. apply not_Exists_Forall in Hnex; [|apply _].
    destruct (rangeDecls_Ok _ ∅ Hnex) as (m & -> & _). by exists m.
Qed.

(** X3. The pass of [Find] over one package returns an entry exactly when
    the located type is an interface, every type-kind identifier of the
    package has an object, every method declaration of the package has a
    body, and every requested name resolves, on every implementation found,
    to a method that has a scope and whose declaration is in the package. *)
Theorem findInPackage_succeeds_iff ifaceType methods pkg :
  is_Ok (findInPackage ifaceType methods pkg) ↔
  isInterface (Underlying ifaceType) = true ∧
  ¬ Exists danglingDef (Defs pkg) ∧
  ¬ Exists bodylessMethod (allDecls pkg) ∧
  ∀ impl, impl ∈ omap (recordedOfDef (Underlying ifaceType)) (Defs pkg) →
    ∀ name, name ∈ methods → resolvable pkg impl name.
Proof.
  split.
  - intros [entry Hentry].
    apply findInPackage_Ok in Hentry as (Hi & impls & Himpls & Hasts).
    rewrite findInterfaceImplementations_spec in Himpls.
    destruct (decide (Exists danglingDef (Defs pkg))) as [|Hnd]; [done|].
    injection Himpls as <-.
    unfold loadPkgTypeMethodASTs in Hasts.
    apply bind_Ok in Hasts as (methodDecls & Hdecls & Hrange).
    split_and!; [done..| |].
    + apply pkgMethodBodyDecls_is_Ok. by exists methodDecls.
    + intros impl Himpl name Hname.
      rewrite rangeImpls_rangeInsert in Hrange.
      destruct (rangeInsert_Ok _ _ _ _ Hrange) as [Hin _].
      destruct (Hin impl Himpl) as (ms & Hms & _).
      unfold methodsOf in Hms. rewrite rangeMethodNames_rangeInsert in Hms.
      destruct (rangeInsert_Ok _ _ _ _ Hms) as [Hnames _].
      destruct (Hnames name Hname) as (decl & Hdecl & _).
      apply findMethodDeclAST_Ok in Hdecl as (method & scope & Hlookup & Hscope & Hpos).
      destruct (pkgMethodBodyDecls_Ok _ _ Hdecls) as [Hsound _].
      destruct (Hsound _ _ Hpos) as [? ?]. by exists method, scope, decl.
  - intros (Hi & Hnd & Hnb & Hres).
    apply pkgMethodBodyDecls_is_Ok in Hnb as [methodDecls Hdecls].
    unfold findInPackage, assertInterface, loadPkgTypeMethodASTs.
    rewrite Hi; simpl. rewrite findInterfaceImplementations_spec.
    rewrite decide_False by done. simpl. rewrite Hdecls; simpl.
    rewrite rangeImpls_rangeInsert. apply rangeInsert_is_Ok. intros impl Himpl.
    unfold methodsOf. rewrite rangeMethodNames_rangeInsert.
    apply rangeInsert_is_Ok. intros name Hname.
    destruct (Hres impl Himpl name Hname)
      as (method & scope & decl & Hlookup & Hscope & Hin & Hpos).
    destruct (pkgMethodBodyDecls_Ok _ _ Hdecls) as [_ Hcomplete].
    destruct (Hcomplete decl Hin) as (pos & Hpos' & [decl' Hdecl']).
    exists decl'. apply findMethodDeclAST_Ok. exists method, scope.
    split_and!; [done..|]. congruence.
Qed.

(** X4. [Find] returns a result exactly when the configuration is not nil,
    the load step returns no error, the interface is located, and the pass
    over every loaded package returns an entry: one package that fails
    leaves no result at all. *)
Theorem Find_succeeds_iff query :
  is_Ok (Find query).2 ↔
  ∃ cfg loadedPkgs ifaceType,
    LoadConfig query = Some cfg ∧
    packages_Load (ensureModes cfg) (Packages query) = (loadedPkgs, None) ∧
    findInterface loadedPkgs (InterfacePackage query) (InterfaceName query) = Ok ifaceType ∧
    ∀ pkg, pkg ∈ loadedPkgs → is_Ok (findInPackage ifaceType (Methods query) pkg).
Proof.
  split.
  - intros [result Hfind]. unfold Find in Hfind.
    destruct (LoadConfig query) as [cfg|] eqn:Hcfg; [|done].
    simpl in Hfind. unfold resolve in Hfind.
    destruct (packages_Load (ensureModes cfg) (Packages query))
      as [loadedPkgs [err|]] eqn:Hload; [done|].
    apply bind_Ok in Hfind as (ifaceType & Hiface & Hrange).
    exists cfg, loadedPkgs, ifaceType. split_and!; [done..|].
    rewrite rangePkgs_rangeInsert in Hrange.
    destruct (rangeInsert_Ok _ _ _ _ Hrange) as [Hin _].
    intros pkg (entry & Hentry & _)%Hin. by exists entry.
  - intros (cfg & loadedPkgs & ifaceType & Hcfg & Hload & Hiface & Hall).
    rewrite (Find_loaded _ _ _ Hcfg Hload), Hiface. simpl.
    rewrite rangePkgs_rangeInsert. by apply rangeInsert_is_Ok.
Qed.

End success.

Section requested_names.
Context `{GoTools}.

(** X5. With no method name requested, the pass over a package cannot fail
    with an error: it panics or it returns an entry, in which every
    implementation found has an empty map of methods. *)
Theorem findInPackage_without_names ifaceType pkg :
  (∀ msg, findInPackage ifaceType [] pkg ≠ Err msg) ∧
  (∀ entry impl methods,
     findInPackage ifaceType [] pkg = Ok entry →
     entry !! impl = Some methods → methods = ∅).
Proof.
  split.
  - intros msg. unfold findInPackage, assertInterface, loadPkgTypeMethodASTs.
    destruct (isInterface (Underlying ifaceType)); simpl; [|done].
    intros [Himpls|(impls & _ & Hrest)]%bind_Err.
    { by apply findInterfaceImplementations_no_Err in Himpls. }
    apply bind_Err in Hrest as [Hdecls|(methodDecls & _ & Hrange)].
    { by apply pkgMethodBodyDecls_no_Err in Hdecls. }
    rewrite rangeImpls_rangeInsert in Hrange.
    by apply rangeInsert_Err in Hrange as (? & impl & ? & _ & _ & ?).
  - intros entry impl methods Hentry Hmethods.
    apply findInPackage_Ok in Hentry as (_ & impls & _ & Hasts).
    unfold loadPkgTypeMethodASTs in Hasts.
    apply bind_Ok in Hasts as (methodDecls & _ & Hrange).
    rewrite rangeImpls_rangeInsert in Hrange.
    destruct (rangeInsert_Ok _ _ _ _ Hrange) as [Hin Hout].
    destruct (decide (impl ∈ impls)) as [Himpl|Hnin].
    + destruct (Hin impl Himpl) as (methods' & Hms & Hlookup).
      unfold methodsOf in Hms. simpl in Hms. congruence.
    + by rewrite (Hout impl Hnin), lookup_empty in Hmethods.
Qed.

(** X6. Only the set of the requested method names matters to the entry of
    a package: two lists with the same names, in any order and with any
    repetition, give equal entries, or both give none. When no requested
    name resolves on an implementation to a method without a scope, two
    runs that fail both return an error (with possibly different texts);
    otherwise one may return an error where the other panics. *)
Theorem loadPkgTypeMethodASTs_same_names impls pkg names names' :
  (∀ name, name ∈ names ↔ name ∈ names') →
  sameResult (loadPkgTypeMethodASTs impls pkg names)
             (loadPkgTypeMethodASTs impls pkg names') ∧
  ((∀ impl name method,
      impl ∈ impls → name ∈ names →
      types_LookupFieldOrMethod impl true (Types pkg) name = Some (OFunc method) →
      is_Some (FuncScope method)) →
   agree (loadPkgTypeMethodASTs impls pkg names)
         (loadPkgTypeMethodASTs impls pkg names')).
Proof.
  intros Hsame. unfold loadPkgTypeMethodASTs.
  destruct (pkgMethodBodyDecls pkg) as [methodDecls|msg|]; simpl; [|done..].
  rewrite !rangeImpls_rangeInsert. split.
  - apply rangeInsert_sameResult_ext. intros impl _.
    unfold methodsOf. rewrite !rangeMethodNames_rangeInsert.
    by apply rangeInsert_sameResult.
  - intros Hscoped.
    assert (∀ impl name, impl ∈ impls → name ∈ names →
              findMethodDeclAST impl pkg name methodDecls ≠ Panic) as Hnp.
    { intros impl name Himpl Hname (method & Hlookup & Hscope)%findMethodDeclAST_Panic.
      destruct (Hscoped impl name method Himpl Hname Hlookup) as [scope Hsome].
      congruence. }
    apply rangeInsert_agree.
    + intros impl Himpl. unfold methodsOf. rewrite !rangeMethodNames_rangeInsert.
      apply rangeInsert_same_elements; [done|]. intros name. by apply Hnp.
    + intros impl Himpl. unfold methodsOf. rewrite rangeMethodNames_rangeInsert.
      intros (name & Hname & Hpanic)%rangeInsert_Panic. by apply (Hnp impl name).
Qed.

(** X7. A requested name that resolves to something that is not a method
    (a field) makes the lookup fail; the error names the type, and instead
    of the requested name it prints the nil method. *)
Theorem findMethodDeclAST_on_a_field impl pkg methodName methodDecls obj :
  types_LookupFieldOrMethod impl true (Types pkg) methodName = Some obj →
  (∀ method, obj ≠ OFunc method) →
  findMethodDeclAST impl pkg methodName methodDecls =
    Err ("field " +:+ fmt_Func None +:+ " on type " +:+ Type_String impl +:+
         " should be a function") ∧
  names ("field " +:+ fmt_Func None +:+ " on type " +:+ Type_String impl +:+
         " should be a function") (Type_String impl).
Proof.
  intros Hlookup Hobj. split.
  - unfold findMethodDeclAST. rewrite Hlookup.
    destruct obj as [? ?|? ?|method]; [done..|]. by destruct (Hobj method).
  - change ("field " +:+ fmt_Func None +:+ " on type " +:+ Type_String impl +:+
            " should be a function")
      with ("field " +:+ (fmt_Func None +:+ (" on type " +:+ (Type_String impl +:+
            " should be a function")))).
    apply names_app_r, names_app_r.
    apply (names_infix " on type " (Type_String impl) " should be a function").
Qed.

End requested_names.

(** [Area] requested once or twice. *)
Lemma loadPkgTypeMethodASTs_same_names_witness :
  sameResult (loadPkgTypeMethodASTs (H := Shapes.tools) [Shapes.Circle] Shapes.shapes
                ["Area"])
             (loadPkgTypeMethodASTs (H := Shapes.tools) [Shapes.Circle] Shapes.shapes
                ["Area"; "Area"]) ∧
  isOkb (loadPkgTypeMethodASTs (H := Shapes.tools) [Shapes.Circle] Shapes.shapes
           ["Area"; "Area"]) = true.
Proof.
  split; [|evaluate].
  destruct (@loadPkgTypeMethodASTs_same_names Shapes.tools [Shapes.Circle]
              Shapes.shapes ["Area"] ["Area"; "Area"]) as [Hsame _]; [|exact Hsame].
  intros name. rewrite !elem_of_cons, elem_of_nil. tauto.
Defined.

(** With a method without a scope, the order of the names decides how the
    retrieval fails: on [Wrap], [Error] makes the lookup panic and nothing
    resolves for [Nope]. *)
Lemma loadPkgTypeMethodASTs_fails_by_the_first_name :
  loadPkgTypeMethodASTs (H := Shapes.tools) [Shapes.Wrap] Shapes.failures
    ["Error"; "Nope"] = Panic ∧
  loadPkgTypeMethodASTs (H := Shapes.tools) [Shapes.Wrap] Shapes.failures
    ["Nope"; "Error"] = Err "did not find method Nope on type failures.Wrap".
Proof.
  split; [apply isPanicb_true | apply errorOf_Some]; evaluate.
Qed.

(** [R] is a field of [Circle]. *)
Lemma findMethodDeclAST_on_a_field_witness :
  findMethodDeclAST (H := Shapes.tools) Shapes.Circle Shapes.shapes "R" ∅ =
    Err "field <nil> on type shapes.Circle should be a function".
Proof.
  apply (@findMethodDeclAST_on_a_field Shapes.tools Shapes.Circle Shapes.shapes "R" ∅
           (OVar "R" (Basic "int"))).
  - evaluate.
  - intros method. discriminate.
Defined.

Section scans.
Context `{GoTools}.

Lemma rangeDefs_skip iface defs results :
  rangeDefs iface (filter (λ d, isTypeIdent d.1 = true) defs) results =
  rangeDefs iface defs results.
Proof.
  revert results. induction defs as [|[ident object] defs IH]; intros results; [done|].
  rewrite filter_cons. simpl. destruct (isTypeIdent ident) eqn:Hid.
  - rewrite decide_True by done. simpl. rewrite Hid.
    destruct object as [obj|]; [|done]. by repeat case_match.
  - rewrite decide_False by (by intros ?). apply IH.
Qed.

Lemma rangeDefsForInterface_skip ifaceName defs :
  rangeDefsForInterface ifaceName (filter (λ d, isTypeIdent d.1 = true) defs) =
  rangeDefsForInterface ifaceName defs.
Proof.
  induction defs as [|[ident object] defs IH]; [done|].
  rewrite filter_cons. simpl. destruct (isTypeIdent ident) eqn:Hid.
  - rewrite decide_True by done. simpl.
    destruct (isTypeIdentNamed ifaceName ident); [done | apply IH].
  - rewrite decide_False by (by intros ?).
    assert (isTypeIdentNamed ifaceName ident = false) as ->
      by (unfold isTypeIdentNamed; by rewrite Hid).
    apply IH.
Qed.

(** X8. Both scans of [TypesInfo.Defs] look at type-kind identifiers only:
    entries whose identifier is nil, has no parser object or is of another
    kind can be dropped, whatever their objects (nil included), without
    changing what the scans return. *)
Theorem scans_skip_other_identifiers iface ifaceName pkg :
  findInterfaceImplementations iface
    (withDefs pkg (filter (λ d, isTypeIdent d.1 = true) (Defs pkg))) =
  findInterfaceImplementations iface pkg ∧
  rangeDefsForInterface ifaceName (filter (λ d, isTypeIdent d.1 = true) (Defs pkg)) =
  rangeDefsForInterface ifaceName (Defs pkg).
Proof.
  split; [apply rangeDefs_skip | apply rangeDefsForInterface_skip].
Qed.

Lemma omap_recordedOfDef iface (defs : list DefEntry) :
  omap (recordedOfDef iface) defs = omap (recordedForm iface) (omap typeOfDef defs).
Proof.
  induction defs as [|d defs IH]; [done|]. cbn. unfold recordedOfDef at 1.
  destruct (typeOfDef d) as [typ|]; cbn; [|exact IH].
  destruct (recordedForm iface typ); cbn; by rewrite IH.
Qed.

Lemma omap_length_le {A B} (f : A → option B) (l : list A) :
  (length (omap f l) ≤ length l)%nat.
Proof. induction l as [|x l IH]; cbn; [done|]. destruct (f x); cbn; lia. Qed.

(** X9. The error result of [findInterfaceImplementations] is always nil. It
    panics exactly when a type-kind identifier has no object; otherwise it
    returns at most one type for each type-kind identifier, in the order of
    the visit. *)
Theorem findInterfaceImplementations_outcome iface pkg :
  (∀ msg, findInterfaceImplementations iface pkg ≠ Err msg) ∧
  (findInterfaceImplementations iface pkg = Panic ↔ Exists danglingDef (Defs pkg)) ∧
  (∀ impls, findInterfaceImplementations iface pkg = Ok impls →
     impls = omap (recordedForm iface) (typeDefs pkg) ∧
     (length impls ≤ length (typeDefs pkg))%nat).
Proof.
  split_and!.
  - apply findInterfaceImplementations_no_Err.
  - rewrite findInterfaceImplementations_spec. by destruct (decide _).
  - intros impls. rewrite findInterfaceImplementations_spec.
    destruct (decide _); [done|]. intros [= <-].
    unfold typeDefs. rewrite omap_recordedOfDef. split; [done|].
    apply omap_length_le.
Qed.

(** X10. The index of method declarations is built exactly when every
    function declaration with a receiver has a body; it then maps a position
    to a declaration only if that declaration has a receiver, lies in a file
    of the package and has its body at that position, and it has an entry at
    the body position of every such declaration. Functions without a
    receiver are not in it. *)
Theorem pkgMethodBodyDecls_index pkg :
  (is_Ok (pkgMethodBodyDecls pkg) ↔ ¬ Exists bodylessMethod (allDecls pkg)) ∧
  (pkgMethodBodyDecls pkg = Panic ↔ Exists bodylessMethod (allDecls pkg)) ∧
  (∀ methodDecls, pkgMethodBodyDecls pkg = Ok methodDecls →
     (∀ pos decl, methodDecls !! pos = Some decl →
        methodDeclIn pkg decl ∧ bodyPos decl = Some pos) ∧
     (∀ decl, methodDeclIn pkg decl →
        ∃ pos, bodyPos decl = Some pos ∧ is_Some (methodDecls !! pos)) ∧
     (∀ pos decl, methodDecls !! pos = Some decl → Recv decl ≠ None)).
Proof.
  split_and!.
  - apply pkgMethodBodyDecls_is_Ok.
  - split; [|apply pkgMethodBodyDecls_Panic].
    intros Hpanic. destruct (decide (Exists bodylessMethod (allDecls pkg))) as [|Hnex];
      [done|].
    apply pkgMethodBodyDecls_is_Ok in Hnex as [m Hm]. congruence.
  - intros methodDecls Hdecls.
    destruct (pkgMethodBodyDecls_Ok _ _ Hdecls) as [Hsound Hcomplete].
    split_and!; [done..|]. intros pos decl [[[r Hr] _] _]%Hsound. by rewrite Hr.
Qed.

End scans.

Section target.
Context `{GoTools}.

(** X11. The located type is asserted to be an interface without a check:
    when the name denotes a named type whose underlying type is not an
    interface, [Find] panics instead of returning an error. *)
Theorem Find_panics_on_a_type_that_is_no_interface query cfg loadedPkgs ifaceType :
  LoadConfig query = Some cfg →
  packages_Load (ensureModes cfg) (Packages query) = (loadedPkgs, None) →
  findInterface loadedPkgs (InterfacePackage query) (InterfaceName query) = Ok ifaceType →
  isInterface (Underlying ifaceType) = false →
  (Find query).2 = Panic.
Proof.
  intros Hcfg Hload Hiface Hno.
  rewrite (Find_loaded _ _ _ Hcfg Hload), Hiface. simpl.
  destruct (findInterface_Ok _ _ _ _ Hiface) as (ifacePkg & Hown).
  apply owningPackage_Some in Hown as [Hin _].
  destruct loadedPkgs as [|pkg pkgs]; [by apply elem_of_nil in Hin|].
  simpl. unfold findInPackage, assertInterface. by rewrite Hno.
Qed.

(** X12. [findInterface] returns an error in two cases only, and the error
    says which: no loaded package has the given identifier, and the error
    names the identifier; or the first loaded package that has it holds no
    type-kind identifier of the given name, and the error names both. A type
    found is always a named type. *)
Theorem findInterface_outcome loadedPkgs path ifaceName :
  (∀ msg, findInterface loadedPkgs path ifaceName = Err msg →
     (owningPackage loadedPkgs path = None ∧
      msg = "did not find interface package " +:+ fmt_q path ∧
      names msg (fmt_q path)) ∨
     (∃ ifacePkg,
        owningPackage loadedPkgs path = Some ifacePkg ∧
        (∀ d, d ∈ Defs ifacePkg → isTypeIdentNamed ifaceName d.1 = false) ∧
        msg = "did not find interface type " +:+ fmt_q ifaceName +:+
              " in loaded package " +:+ fmt_q path ∧
        names msg (fmt_q ifaceName) ∧ names msg (fmt_q path))) ∧
  (∀ ifaceType, findInterface loadedPkgs path ifaceName = Ok ifaceType →
     ∃ pkgPath name under methods, ifaceType = Named pkgPath name under methods) ∧
  (loadedPkgs = [] →
     findInterface loadedPkgs path ifaceName =
       Err ("did not find interface package " +:+ fmt_q path)).
Proof.
  split_and!.
  - intros msg. rewrite findInterface_owningPackage.
    destruct (owningPackage loadedPkgs path) as [ifacePkg|] eqn:Hown.
    + destruct (rangeDefsForInterface ifaceName (Defs ifacePkg))
        as [[ident [obj|]]|] eqn:Hdefs.
      * unfold assertNamed. by destruct (ObjType obj).
      * done.
      * intros [= <-]. right. exists ifacePkg. split_and!; [done| |done| |].
        -- by apply rangeDefsForInterface_None.
        -- apply (names_infix "did not find interface type " (fmt_q ifaceName)).
        -- change ("did not find interface type " +:+ fmt_q ifaceName +:+
                   " in loaded package " +:+ fmt_q path)
             with ("did not find interface type " +:+ (fmt_q ifaceName +:+
                   (" in loaded package " +:+ fmt_q path))).
           apply names_app_r, names_app_r, names_suffix.
    + intros [= <-]. left. split_and!; [done..|]. apply names_suffix.
  - intros ifaceType. rewrite findInterface_owningPackage.
    destruct (owningPackage loadedPkgs path) as [ifacePkg|]; [|done].
    destruct (rangeDefsForInterface ifaceName (Defs ifacePkg)) as [[ident [obj|]]|];
      [|done..].
    unfold assertNamed. destruct (ObjType obj) eqn:Ht; try done.
    intros [= <-]. by eexists _, _, _, _.
  - by intros ->.
Qed.

(** X13. What [Find] does to the configuration: the result has all the
    required modes and a file set; every mode bit and the file set that the
    caller had set are kept; and doing it again changes nothing, so a query
    can be used for a second call. *)
Theorem ensureModes_adds_only cfg :
  Z.land (Mode (ensureModes cfg)) requiredModes = requiredModes ∧
  is_Some (Fset (ensureModes cfg)) ∧
  Z.land (Mode (ensureModes cfg)) (Mode cfg) = Mode cfg ∧
  (∀ fset, Fset cfg = Some fset → Fset (ensureModes cfg) = Some fset) ∧
  ensureModes (ensureModes cfg) = ensureModes cfg.
Proof.
  destruct cfg as [mode dir fset]. unfold ensureModes; simpl.
  assert (∀ a b, Z.land (Z.lor a b) b = b) as Habsorb_r.
  { intros a b. apply Z.bits_inj'. intros n _.
    rewrite Z.land_spec, Z.lor_spec. by destruct (Z.testbit a n), (Z.testbit b n). }
  assert (∀ a b, Z.land (Z.lor a b) a = a) as Habsorb_l.
  { intros a b. apply Z.bits_inj'. intros n _.
    rewrite Z.land_spec, Z.lor_spec. by destruct (Z.testbit a n), (Z.testbit b n). }
  assert (∀ a b, Z.lor (Z.lor a b) b = Z.lor a b) as Hidem.
  { intros a b. apply Z.bits_inj'. intros n _.
    rewrite !Z.lor_spec. by destruct (Z.testbit a n), (Z.testbit b n). }
  destruct fset as [fset|]; simpl; rewrite ?Hidem;
    split_and!; try done; try by eexists.
  all: by intros ? [= <-].
Qed.

End target.

(** [Circle] is a struct: asked for the implementations of [shapes.Circle],
    [Find] panics. *)
Lemma Find_panics_on_a_type_that_is_no_interface_witness :
  (Find (H := Shapes.tools)
     {| LoadConfig := Some Shapes.config; Packages := ["geo"; "shapes"];
        InterfacePackage := "shapes"; InterfaceName := "Circle";
        Methods := ["Area"] |}).2 = Panic.
Proof.
  apply (@Find_panics_on_a_type_that_is_no_interface Shapes.tools _ Shapes.config
           [Shapes.geo; Shapes.shapes] Shapes.Circle).
  - reflexivity.
  - evaluate.
  - evaluate.
  - reflexivity.
Defined.

(** * Properties of the generator *)

Lemma lastByte_app_newline b : lastByte (b +:+ newline) = Some (Ascii.ascii_of_nat 10).
Proof.
  induction b as [|c b IH]; [done|]. simpl.
  destruct (b +:+ newline) eqn:Hb; [|done]. by destruct b.
Qed.

Section generator.
Context `{GoTools} {M FS : Type} `{GeneratorTools M FS}.

Lemma getPackageDiagnosticsOutputPath_no_Panic pkg :
  getPackageDiagnosticsOutputPath pkg ≠ Panic.
Proof.
  unfold getPackageDiagnosticsOutputPath.
  by destruct (GoFiles pkg), (OtherFiles pkg).
Qed.

(** X14. [getPackageDiagnosticsOutputPath] fails exactly when the package has
    neither Go files nor other files, with an error that names the package;
    otherwise the path is [diagnosticsJSONPath] in the directory of the
    first Go file, whatever the other files are, and of the first other file
    only when there is no Go file. *)
Theorem getPackageDiagnosticsOutputPath_outcome pkg :
  (is_Err (getPackageDiagnosticsOutputPath pkg) ↔ GoFiles pkg = [] ∧ OtherFiles pkg = []) ∧
  (∀ msg, getPackageDiagnosticsOutputPath pkg = Err msg → names msg (fmt_q (ID (Loaded pkg)))) ∧
  getPackageDiagnosticsOutputPath pkg ≠ Panic ∧
  (∀ goFile goFiles, GoFiles pkg = goFile :: goFiles →
     getPackageDiagnosticsOutputPath pkg =
       Ok (filepath_Join (filepath_Dir goFile) diagnosticsJSONPath)) ∧
  (∀ otherFile otherFiles, GoFiles pkg = [] → OtherFiles pkg = otherFile :: otherFiles →
     getPackageDiagnosticsOutputPath pkg =
       Ok (filepath_Join (filepath_Dir otherFile) diagnosticsJSONPath)).
Proof.
  unfold getPackageDiagnosticsOutputPath.
  destruct (GoFiles pkg) as [|goFile goFiles]; [destruct (OtherFiles pkg) as [|otherFile ?]|];
    split_and!; try done; try (split; [by intros [? ?] | by intros [? ?]]).
  - split; [done|]. intros _. by eexists.
  - intros msg [= <-].
    apply (names_infix "failed to detect package " (fmt_q (ID (Loaded pkg)))).
  - by intros ? ? _ [= <- <-].
  - by intros ? ? [= <- <-].
Qed.

(** X15. [renderPackageDiagnosticsJSON] marshals the implementations sorted
    by [Type]. It returns the error of the marshaller; it panics when the
    marshaller returns no byte and no error; otherwise what it returns ends
    in a line feed, and is the marshalled text itself when that already ends
    in one, and the text with one line feed appended when it does not. *)
Theorem renderPackageDiagnosticsJSON_outcome impls :
  let sorted := sort_Slice (λ a b, String.ltb (MetadataType a) (MetadataType b)) impls in
  let marshalled := json_MarshalIndent sorted "" "  " in
  (∀ err, marshalled.2 = Some err → renderPackageDiagnosticsJSON impls = Err err) ∧
  (marshalled.2 = None → marshalled.1 = EmptyString →
   renderPackageDiagnosticsJSON impls = Panic) ∧
  (∀ metadataJSON, renderPackageDiagnosticsJSON impls = Ok metadataJSON →
     marshalled.2 = None ∧
     lastByte metadataJSON = Some (Ascii.ascii_of_nat 10) ∧
     (lastByte marshalled.1 = Some (Ascii.ascii_of_nat 10) → metadataJSON = marshalled.1) ∧
     (lastByte marshalled.1 ≠ Some (Ascii.ascii_of_nat 10) →
      metadataJSON = marshalled.1 +:+ newline)).
Proof.
  intros sorted marshalled. unfold renderPackageDiagnosticsJSON.
  fold sorted. fold marshalled. destruct marshalled as [text [err|]]; simpl.
  { split_and!; [by intros ? [= <-]|done..]. }
  destruct (lastByte text) as [c|] eqn:Hlast.
  - split_and!; [done| |].
    + intros _ ->. done.
    + intros metadataJSON. case_bool_decide as Hc; intros [= <-].
      * split_and!; [done|apply lastByte_app_newline| |done].
        intros [= ->]. done.
      * subst c. split_and!; [done..|]. by intros [].
  - split_and!; [done..|]. by intros ?.
Qed.

Lemma rangeMetadata_verify_frame metadata fs stdout :
  (rangeMetadata true metadata fs stdout).1 = (fs, stdout).
Proof.
  induction metadata as [|[pkg impls] metadata IH]; [done|]. simpl.
  destruct (getPackageDiagnosticsOutputPath pkg) as [outputPath|err|]; [| |done].
  - repeat case_bool_decide; simpl; try done.
    + destruct (renderPackageDiagnosticsJSON impls); [|done..].
      destruct (ioutil_ReadFile fs outputPath) as [existing [err|]]; [done|].
      by case_bool_decide.
    + by destruct (renderPackageDiagnosticsJSON impls).
  - by case_bool_decide.
Qed.

(** X16. With [verify] set, [Generate] changes nothing: whatever it returns,
    the file system and what was written to [stdout] are as before the
    call. *)
Theorem Generate_verify_changes_nothing pkgs projectDir fs stdout :
  (Generate pkgs true projectDir fs stdout).1 = (fs, stdout).
Proof.
  unfold Generate.
  destruct (LoadDiagnosticHandlerImpls pkgs projectDir) as [metadata [err|]]; [done|].
  apply rangeMetadata_verify_frame.
Qed.

(** One turn of the loop with [verify] set. *)
Lemma rangeMetadata_verify_cons entry metadata fs stdout :
  (upToDate fs entry →
   rangeMetadata true (entry :: metadata) fs stdout =
   rangeMetadata true metadata fs stdout) ∧
  ((rangeMetadata true (entry :: metadata) fs stdout).2 = Ok () → upToDate fs entry).
Proof.
  destruct entry as [pkg impls]. unfold upToDate. simpl.
  pose proof (getPackageDiagnosticsOutputPath_no_Panic pkg) as Hnp.
  destruct (getPackageDiagnosticsOutputPath pkg) as [outputPath|err|]; [| |done].
  - case_bool_decide as Hlen; split.
    + intros Hstat. by rewrite bool_decide_eq_false_2.
    + case_bool_decide as Hstat; [done|]. done.
    + intros (metadataJSON & -> & Hstat & Hread).
      rewrite (bool_decide_eq_true_2 _ Hstat). simpl.
      rewrite Hread. by rewrite bool_decide_eq_false_2 by (by intros ?).
    + destruct (renderPackageDiagnosticsJSON impls) as [metadataJSON|?|];
        [|done..].
      case_bool_decide as Hstat; simpl; [|done].
      destruct (ioutil_ReadFile fs outputPath) as [existing [err|]] eqn:Hread; [done|].
      case_bool_decide as Hsame; [done|]. intros _. exists metadataJSON.
      split_and!; [done..|]. by subst.
  - split.
    + intros ->. done.
    + case_bool_decide as Hlen; [done|]. intros _.
      destruct impls; [done | simpl in Hlen; lia].
Qed.

(** With [verify] set, the loop returns no error exactly when the file of
    every package is up to date. *)
Lemma rangeMetadata_verify_Forall metadata fs stdout :
  (rangeMetadata true metadata fs stdout).2 = Ok () ↔ Forall (upToDate fs) metadata.
Proof.
  induction metadata as [|entry metadata IH].
  - split; [by constructor | done].
  - destruct (rangeMetadata_verify_cons entry metadata fs stdout) as [Hyes Hno].
    rewrite Forall_cons. split.
    + intros Hok. pose proof (Hno Hok) as Hup.
      split; [done|]. apply IH. by rewrite <-(Hyes Hup).
    + intros [Hup Hrest]. rewrite (Hyes Hup). by apply IH.
Qed.

(** X17. With [verify] set, [Generate] returns no error exactly when the
    loader returned none and the file of every package is as [Generate]
    would leave it: a package with implementations has a file that holds
    their rendering, one without has no file, and one without an output path
    has no implementation. *)
Theorem Generate_verifies_iff pkgs projectDir fs stdout :
  (Generate pkgs true projectDir fs stdout).2 = Ok () ↔
  (LoadDiagnosticHandlerImpls pkgs projectDir).2 = None ∧
  Forall (upToDate fs) (LoadDiagnosticHandlerImpls pkgs projectDir).1.
Proof.
  unfold Generate.
  destruct (LoadDiagnosticHandlerImpls pkgs projectDir) as [metadata [err|]]; simpl.
  - split; [done | by intros [? _]].
  - rewrite rangeMetadata_verify_Forall. tauto.
Qed.

(** What [upToDate] reads of the file system. *)
Lemma upToDate_ext fs fs' entry :
  (∀ outputPath, getPackageDiagnosticsOutputPath entry.1 = Ok outputPath →
     os_Stat fs' outputPath = os_Stat fs outputPath ∧
     ioutil_ReadFile fs' outputPath = ioutil_ReadFile fs outputPath) →
  upToDate fs entry → upToDate fs' entry.
Proof.
  unfold upToDate. intros Hsame.
  destruct (getPackageDiagnosticsOutputPath entry.1) as [outputPath|err|]; [|done..].
  destruct (Hsame outputPath eq_refl) as [-> ->]. done.
Qed.

(** A run without [verify] that returns no error leaves the files of other
    paths as they were. *)
Lemma rangeMetadata_generate_frame metadata fs stdout fs' stdout' other :
  FileSystemLaws →
  rangeMetadata false metadata fs stdout = (fs', stdout', Ok ()) →
  other ∉ outputPaths metadata →
  os_Stat fs' other = os_Stat fs other ∧
  ioutil_ReadFile fs' other = ioutil_ReadFile fs other.
Proof.
  intros Hlaws. revert fs stdout.
  induction metadata as [|[pkg impls] metadata IH]; intros fs stdout; simpl.
  { by intros [= <- <-] _. }
  unfold outputPaths. simpl. fold (outputPaths metadata).
  destruct (getPackageDiagnosticsOutputPath pkg) as [outputPath|err|]; [| |done].
  - intros Hrun [Hne Hnin]%not_elem_of_cons. revert Hrun.
    case_bool_decide as Hlen.
    + case_bool_decide as Hstat; [|by intros Hrun; eapply IH]. simpl.
      destruct (os_Remove fs outputPath) as [fs1 [err|]] eqn:Hremove; [done|].
      intros Hrun. destruct (IH _ _ Hrun Hnin) as [-> ->].
      by apply (removed_leaves_others Hlaws _ _ _ _ Hremove).
    + destruct (renderPackageDiagnosticsJSON impls) as [metadataJSON|?|]; [|done..].
      destruct (ioutil_WriteFile fs outputPath metadataJSON 420) as [fs1 [err|]] eqn:Hwrite;
        [done|].
      intros Hrun. destruct (IH _ _ Hrun Hnin) as [-> ->].
      by apply (written_leaves_others Hlaws _ _ _ _ _ _ Hwrite).
  - case_bool_decide; [done|]. intros Hrun Hnin. by eapply IH.
Qed.

(** A run of the loop without [verify] that returns no error, over packages
    whose output paths differ from each other, leaves the file of every
    package up to date. *)
Lemma rangeMetadata_generate_Forall metadata fs stdout fs' stdout' :
  FileSystemLaws →
  NoDup (outputPaths metadata) →
  rangeMetadata false metadata fs stdout = (fs', stdout', Ok ()) →
  Forall (upToDate fs') metadata.
Proof.
  intros Hlaws. revert fs stdout.
  induction metadata as [|[pkg impls] metadata IH]; intros fs stdout; [by constructor|].
  unfold outputPaths. simpl. fold (outputPaths metadata).
  destruct (getPackageDiagnosticsOutputPath pkg) as [outputPath|err|] eqn:Hpath;
    [| |done].
  - intros [Hnin Hnodup]%NoDup_cons Hrun.
    assert (∀ fs1 stdout1,
      rangeMetadata false metadata fs1 stdout1 = (fs', stdout', Ok ()) →
      upToDate fs1 (pkg, impls) →
      Forall (upToDate fs') ((pkg, impls) :: metadata)) as Hrest.
    { intros fs1 stdout1 Hrun1 Hup. constructor; [|by eapply IH].
      apply (upToDate_ext fs1); [|done]. simpl. rewrite Hpath. intros ? [= <-].
      by eapply rangeMetadata_generate_frame. }
    revert Hrun. case_bool_decide as Hlen.
    + case_bool_decide as Hstat; simpl.
      * destruct (os_Remove fs outputPath) as [fs1 [err|]] eqn:Hremove; [done|].
        intros Hrun1. apply (Hrest _ _ Hrun1). unfold upToDate. simpl.
        rewrite Hpath, bool_decide_eq_true_2 by done.
        by apply (removed_is_gone Hlaws _ _ _ Hremove).
      * intros Hrun1. apply (Hrest _ _ Hrun1). unfold upToDate. simpl.
        by rewrite Hpath, bool_decide_eq_true_2 by done.
    + destruct (renderPackageDiagnosticsJSON impls) as [metadataJSON|?|] eqn:Hrender;
        [|done..].
      destruct (ioutil_WriteFile fs outputPath metadataJSON 420) as [fs1 [err|]] eqn:Hwrite;
        [done|].
      intros Hrun1. apply (Hrest _ _ Hrun1). unfold upToDate. simpl.
      rewrite Hpath, bool_decide_eq_false_2 by done.
      exists metadataJSON. split; [done|].
      by apply (written_is_there Hlaws _ _ _ _ _ Hwrite).
  - intros Hnodup. case_bool_decide as Hlen; [done|]. intros Hrun.
    constructor; [|by eapply IH]. unfold upToDate. simpl. rewrite Hpath.
    destruct impls; [done | simpl in Hlen; lia].
Qed.

(** X18. When [Generate] runs without [verify] and returns no error, and
    the output paths of the packages differ from each other, it leaves the
    file of every package up to date: written with the rendering of its
    implementations, or absent when it has none. *)
Theorem Generate_leaves_files_up_to_date pkgs projectDir fs stdout fs' stdout' :
  FileSystemLaws →
  NoDup (outputPaths (LoadDiagnosticHandlerImpls pkgs projectDir).1) →
  Generate pkgs false projectDir fs stdout = (fs', stdout', Ok ()) →
  Forall (upToDate fs') (LoadDiagnosticHandlerImpls pkgs projectDir).1.
Proof.
  intros Hlaws. unfold Generate.
  destruct (LoadDiagnosticHandlerImpls pkgs projectDir) as [metadata [err|]]; [done|].
  simpl. intros Hnodup Hrun. by eapply rangeMetadata_generate_Forall.
Qed.

(** X19. After [Generate] has run without [verify] and returned no error, a
    run with [verify] set returns no error and changes nothing, provided the
    output paths of the packages differ from each other. *)
Theorem Generate_then_verify pkgs projectDir fs stdout fs' stdout' :
  FileSystemLaws →
  NoDup (outputPaths (LoadDiagnosticHandlerImpls pkgs projectDir).1) →
  Generate pkgs false projectDir fs stdout = (fs', stdout', Ok ()) →
  Generate pkgs true projectDir fs' stdout' = (fs', stdout', Ok ()).
Proof.
  intros Hlaws. unfold Generate.
  destruct (LoadDiagnosticHandlerImpls pkgs projectDir) as [metadata [err|]]; [done|].
  simpl. intros Hnodup Hrun.
  pose proof (rangeMetadata_generate_Forall _ _ _ _ _ Hlaws Hnodup Hrun) as Hup.
  apply (rangeMetadata_verify_Forall metadata fs' stdout') in Hup.
  pose proof (rangeMetadata_verify_frame metadata fs' stdout') as Hframe.
  destruct (rangeMetadata true metadata fs' stdout') as [[fs2 stdout2] r].
  simpl in Hup, Hframe. by simplify_eq.
Qed.

(** What the loop writes to [stdout]. *)
Lemma rangeMetadata_stdout verify metadata fs stdout :
  ∃ lines,
    (rangeMetadata verify metadata fs stdout).1.2 = stdout ++ lines ∧
    Forall (λ line, line = "Removing " +:+ diagnosticsJSONPath +:+
                           " as there are no DiagnosticHandler implementations" +:+
                           newline) lines ∧
    (length lines ≤ length (filter (λ entry, entry.2 = []) metadata))%nat.
Proof.
  revert fs stdout.
  induction metadata as [|[pkg impls] metadata IH]; intros fs stdout.
  { exists []. by rewrite app_nil_r. }
  assert (∀ fs1, ∃ lines,
    (rangeMetadata verify metadata fs1 stdout).1.2 = stdout ++ lines ∧
    Forall (λ line, line = "Removing " +:+ diagnosticsJSONPath +:+
                           " as there are no DiagnosticHandler implementations" +:+
                           newline) lines ∧
    (length lines ≤ length (filter (λ entry, entry.2 = []) ((pkg, impls) :: metadata)))%nat)
    as Hrest.
  { intros fs1. destruct (IH fs1 stdout) as (lines & ? & ? & ?).
    exists lines. split_and!; [done..|].
    rewrite filter_cons. case_decide; simpl; lia. }
  assert (∃ lines : list string,
    stdout = stdout ++ lines ∧
    Forall (λ line, line = "Removing " +:+ diagnosticsJSONPath +:+
                           " as there are no DiagnosticHandler implementations" +:+
                           newline) lines ∧
    (length lines ≤ length (filter (λ entry, entry.2 = []) ((pkg, impls) :: metadata)))%nat)
    as Hstop.
  { exists []. rewrite app_nil_r. split_and!; [done..|]. simpl. lia. }
  simpl rangeMetadata.
  destruct (getPackageDiagnosticsOutputPath pkg) as [outputPath|err|]; [| |done].
  - case_bool_decide as Hlen.
    + case_bool_decide as Hstat; [|done]. destruct verify; [done|].
      assert (impls = []) as -> by by destruct impls.
      destruct (os_Remove fs outputPath) as [fs1 [err|]].
      * eexists [_]. split_and!; [done|by repeat constructor|].
        rewrite filter_cons. rewrite decide_True by done. simpl. lia.
      * destruct (IH fs1 (stdout ++ ["Removing " +:+ diagnosticsJSONPath +:+
                    " as there are no DiagnosticHandler implementations" +:+ newline]))
          as (lines & -> & ? & ?).
        eexists (_ :: lines). rewrite <-app_assoc. split_and!; [done|by constructor|].
        rewrite filter_cons. rewrite decide_True by done. simpl. lia.
    + destruct (renderPackageDiagnosticsJSON impls) as [metadataJSON|?|]; [|done..].
      destruct verify.
      * case_bool_decide; simpl; [|done].
        destruct (ioutil_ReadFile fs outputPath) as [existing [err|]]; [done|].
        by case_bool_decide.
      * destruct (ioutil_WriteFile fs outputPath metadataJSON 420) as [fs1 [err|]]; done.
  - by case_bool_decide.
Qed.

(** X20. A run of [Generate] without [verify] that returns no error leaves
    every file that is not the output path of a package as it was. *)
Theorem Generate_touches_only_output_paths pkgs projectDir fs stdout fs' stdout' other :
  FileSystemLaws →
  Generate pkgs false projectDir fs stdout = (fs', stdout', Ok ()) →
  other ∉ outputPaths (LoadDiagnosticHandlerImpls pkgs projectDir).1 →
  os_Stat fs' other = os_Stat fs other ∧
  ioutil_ReadFile fs' other = ioutil_ReadFile fs other.
Proof.
  intros Hlaws. unfold Generate.
  destruct (LoadDiagnosticHandlerImpls pkgs projectDir) as [metadata [err|]]; [done|].
  simpl. intros Hrun Hnin. by eapply rangeMetadata_generate_frame.
Qed.

(** X21. Whatever [Generate] returns, it only appends to [stdout], and what
    it appends are notices of removal: at most one for each package without
    implementations, and none when the loader fails. *)
Theorem Generate_prints_removals_only pkgs verify projectDir fs stdout :
  ∃ lines,
    (Generate pkgs verify projectDir fs stdout).1.2 = stdout ++ lines ∧
    Forall (λ line, line = "Removing " +:+ diagnosticsJSONPath +:+
                           " as there are no DiagnosticHandler implementations" +:+
                           newline) lines ∧
    (length lines ≤ length (filter (λ entry, entry.2 = [])
                              (LoadDiagnosticHandlerImpls pkgs projectDir).1))%nat ∧
    ((LoadDiagnosticHandlerImpls pkgs projectDir).2 ≠ None → lines = []).
Proof.
  unfold Generate.
  destruct (LoadDiagnosticHandlerImpls pkgs projectDir) as [metadata [err|]]; simpl.
  - exists []. rewrite app_nil_r. split_and!; [done..|simpl; lia|done].
  - destruct (rangeMetadata_stdout verify metadata fs stdout) as (lines & ? & ? & ?).
    by exists lines.
Qed.

End generator.

(** ** The sample project *)

(** Files as a finite map behave as [FileSystemLaws] asks. *)
Lemma ReferenceFiles_laws metadata :
  FileSystemLaws (H0 := referenceGenerator metadata).
Proof.
  split; simpl; unfold ReferenceFiles.WriteFile, ReferenceFiles.Remove,
    ReferenceFiles.Stat, ReferenceFiles.ReadFile.
  - intros fs outputPath data perm fs' [= <-]. by rewrite lookup_insert_eq.
  - intros fs outputPath data perm fs' other [= <-] Hne.
    by rewrite lookup_insert_ne.
  - intros fs outputPath fs'. destruct (fs !! outputPath); [|done].
    intros [= <-]. by rewrite lookup_delete_eq.
  - intros fs outputPath fs' other. destruct (fs !! outputPath); [|done].
    intros [= <-] Hne. by rewrite lookup_delete_ne.
Qed.

Lemma sample_run_Ok :
  Generate (H := Shapes.tools) (H0 := Handlers.tools) [] false "." Handlers.stale [] =
  (Handlers.run.1.1, Handlers.run.1.2, Ok ()).
Proof.
  assert (Handlers.run.2 = Ok ()) as Hok by evaluate.
  unfold Handlers.run in *.
  destruct (Generate (H := Shapes.tools) (H0 := Handlers.tools) [] false "." Handlers.stale [])
    as [[fs' stdout'] r].
  simpl in *. by subst.
Qed.

Lemma sample_paths_differ :
  NoDup (outputPaths (H := Shapes.tools) (H0 := Handlers.tools)
           (LoadDiagnosticHandlerImpls (GeneratorTools := Handlers.tools) [] ".").1).
Proof. decide_by_evaluation. Qed.

Lemma Generate_leaves_files_up_to_date_witness :
  Forall (upToDate (H := Shapes.tools) (H0 := Handlers.tools) Handlers.run.1.1) Handlers.metadata.
Proof.
  exact (Generate_leaves_files_up_to_date (H := Shapes.tools) (H0 := Handlers.tools) [] "." Handlers.stale []
           _ _ (ReferenceFiles_laws _) sample_paths_differ sample_run_Ok).
Defined.

Lemma Generate_then_verify_witness :
  Generate (H := Shapes.tools) (H0 := Handlers.tools) [] true "." Handlers.run.1.1 Handlers.run.1.2 =
  (Handlers.run.1.1, Handlers.run.1.2, Ok ()).
Proof.
  exact (Generate_then_verify (H := Shapes.tools) (H0 := Handlers.tools) [] "." Handlers.stale []
           _ _ (ReferenceFiles_laws _) sample_paths_differ sample_run_Ok).
Defined.

Lemma Generate_touches_only_output_paths_witness :
  os_Stat (GeneratorTools := Handlers.tools) Handlers.run.1.1 "plain/data.txt" =
    os_Stat (GeneratorTools := Handlers.tools) Handlers.stale "plain/data.txt" ∧
  ioutil_ReadFile (GeneratorTools := Handlers.tools) Handlers.run.1.1 "plain/data.txt" =
    ioutil_ReadFile (GeneratorTools := Handlers.tools) Handlers.stale "plain/data.txt".
Proof.
  apply (Generate_touches_only_output_paths (H := Shapes.tools) (H0 := Handlers.tools)
           [] "." Handlers.stale [] _ _ "plain/data.txt"
           (ReferenceFiles_laws _) sample_run_Ok).
  decide_by_evaluation.
Defined.
